(** * KindRewrite: the moderation proxy and the rule-based rewrite engine

    A shallow embedding of [server.js].  JavaScript strings are sequences of
    UTF-16 code units, so a string is a [list N]; the regular expressions of
    the source are embedded by the matcher they denote (ordered alternatives
    of literals between two [\b] assertions, flags [g] and [i]). *)

From Stdlib Require Import NArith ZArith List String Ascii Bool Lia SpecFloat.
Import ListNotations.

Local Open Scope N_scope.

(** * The program *)

(** ** Strings *)

Definition jsstring := list N.

(** An ASCII literal of the source as a sequence of code units. *)
Definition js (s : string) : jsstring :=
  List.map N_of_ascii (list_ascii_of_string s).

Fixpoint jsstring_eqb (a b : jsstring) : bool :=
  match a, b with
  | [], [] => true
  | x :: a', y :: b' => (x =? y) && jsstring_eqb a' b'
  | _, _ => false
  end.

(** [\w] without the [u] flag: [A-Za-z0-9_]. *)
Definition isWordChar (c : N) : bool :=
  ((48 <=? c) && (c <=? 57)) || ((65 <=? c) && (c <=? 90))
  || (c =? 95) || ((97 <=? c) && (c <=? 122)).

(** [\s], and the characters [trim] strips: WhiteSpace and LineTerminator. *)
Definition isWhiteSpace (c : N) : bool :=
  ((9 <=? c) && (c <=? 13)) || (c =? 32) || (c =? 160) || (c =? 5760)
  || ((8192 <=? c) && (c <=? 8202)) || (c =? 8232) || (c =? 8233)
  || (c =? 8239) || (c =? 8287) || (c =? 12288) || (c =? 65279).

(** Canonicalize of a code unit under flag [i] (no [u]), as far as it can
    be compared with the ASCII characters of the patterns: an ASCII
    lower-case letter becomes its upper-case letter; a code unit from 128 on
    never canonicalizes into ASCII, so it is left alone. *)
Definition canonicalize (c : N) : N :=
  if (97 <=? c) && (c <=? 122) then c - 32 else c.

Definition optWord (c : option N) : bool :=
  match c with
  | Some x => isWordChar x
  | None => false
  end.

(** The assertion [\b] between the character before and the one after. *)
Definition word_boundary (prev next : option N) : bool :=
  xorb (optWord prev) (optWord next).

(** ** Regular expressions of the shape [/\b(a1|a2|...)\b/gi] *)

(** Matching a literal, ignoring case: the last character consumed and the
    rest of the input. *)
Fixpoint match_literal (p : jsstring) (prev : option N) (s : jsstring)
  : option (option N * jsstring) :=
  match p with
  | [] => Some (prev, s)
  | pc :: p' =>
      match s with
      | [] => None
      | c :: s' =>
          if canonicalize pc =? canonicalize c
          then match_literal p' (Some c) s'
          else None
      end
  end.

(** The alternatives in order, each followed by the closing [\b]; the first
    that succeeds gives the length of the match. *)
Fixpoint match_alternatives (alts : list jsstring) (prev : option N)
  (s : jsstring) : option nat :=
  match alts with
  | [] => None
  | a :: alts' =>
      match match_literal a prev s with
      | Some (last, rest) =>
          if word_boundary last (hd_error rest)
          then Some (List.length a)
          else match_alternatives alts' prev s
      | None => match_alternatives alts' prev s
      end
  end.

(** A match attempt at one position: [prev] is the character before it. *)
Definition regexp_exec (alts : list jsstring) (prev : option N)
  (s : jsstring) : option nat :=
  if word_boundary prev (hd_error s) then match_alternatives alts prev s
  else None.

Record rule := { pattern : list jsstring; replacement : jsstring }.

(** [String.prototype.replace] with a global pattern: scan from the left; at
    a match emit the replacement and resume after the matched text ([skip]
    counts the matched characters still to pass over).  Every alternative of
    the source is non-empty. *)
Fixpoint replace_from (r : rule) (prev : option N) (skip : nat)
  (s : jsstring) : jsstring :=
  match s with
  | [] => []
  | c :: rest =>
      match skip with
      | S k => replace_from r (Some c) k rest
      | O =>
          match regexp_exec (pattern r) prev s with
          | Some n => replacement r ++ replace_from r (Some c) (Nat.pred n) rest
          | None => c :: replace_from r (Some c) O rest
          end
      end
  end.

Definition replace (r : rule) (s : jsstring) : jsstring :=
  replace_from r None O s.

(** ** The rewrite engine *)

Definition aggressivePatterns : list rule :=
  [ {| pattern := [js "stupid"; js "dumb"; js "idiotic"; js "moronic"];
       replacement := js "unclear" |};
    {| pattern := [js "hate"; js "despise"; js "loathe"];
       replacement := js "don't prefer" |};
    {| pattern := [js "terrible"; js "awful"; js "horrible"; js "atrocious"];
       replacement := js "not ideal" |};
    {| pattern := [js "never"; js "always"];
       replacement := js "sometimes" |};
    {| pattern := [js "useless"; js "worthless"];
       replacement := js "not quite working" |};
    {| pattern := [js "waste of time"];
       replacement := js "could be optimized" |};
    {| pattern := [js "wrong"; js "incorrect"];
       replacement := js "might need adjustment" |};
    {| pattern := [js "obviously"; js "clearly"];
       replacement := js "it seems" |};
    {| pattern := [js "fail"; js "failed"; js "failure"];
       replacement := js "didn't work out" |};
    {| pattern := [js "ridiculous"; js "absurd"];
       replacement := js "surprising" |} ].

(** Step 1 of [applyRewriteRules]: the loop over [aggressivePatterns]. *)
Definition soften (text : jsstring) : jsstring :=
  fold_left (fun result r => replace r result) aggressivePatterns text.

(** [text.replace(/\s+/g, ' ')]. *)
Fixpoint collapse_from (in_run : bool) (s : jsstring) : jsstring :=
  match s with
  | [] => []
  | c :: rest =>
      if isWhiteSpace c
      then (if in_run then collapse_from true rest
            else 32 :: collapse_from true rest)
      else c :: collapse_from false rest
  end.

Definition collapse_whitespace (s : jsstring) : jsstring :=
  collapse_from false s.

Fixpoint trimStart (s : jsstring) : jsstring :=
  match s with
  | [] => []
  | c :: rest => if isWhiteSpace c then trimStart rest else s
  end.

Definition trimEnd (s : jsstring) : jsstring := rev (trimStart (rev s)).

Definition trim (s : jsstring) : jsstring := trimEnd (trimStart s).

(** [text.replace(/\s+/g, ' ').trim()]. *)
Definition normalize (s : jsstring) : jsstring := trim (collapse_whitespace s).

Definition isTerminator (c : N) : bool := (c =? 46) || (c =? 33) || (c =? 63).

Fixpoint span_sentence (s : jsstring) : jsstring * jsstring :=
  match s with
  | [] => ([], [])
  | c :: rest =>
      if isTerminator c then ([], s)
      else let (body, tl) := span_sentence rest in (c :: body, tl)
  end.

(** [text.match(/^[^.!?]+[.!?]/)?.[0]]: the greedy run of non-terminators
    must be non-empty and be followed by a terminator. *)
Definition match_first_sentence (s : jsstring) : option jsstring :=
  match span_sentence s with
  | ((_ :: _) as body, t :: _) => Some (body ++ [t])
  | _ => None
  end.

Section Runtime.

(** [String.prototype.toUpperCase] on a string of one code unit: a table
    of the JavaScript runtime (some characters become several). *)
Variable toUpperCase : N -> jsstring.

(** [text.charAt(0).toUpperCase() + text.slice(1)]. *)
Definition capitalize (text : jsstring) : jsstring :=
  match text with
  | [] => []
  | c :: rest => toUpperCase c ++ rest
  end.

Definition wrapProfessional (text : jsstring) : jsstring :=
  let intro := js "I wanted to share some feedback regarding this matter. " in
  let outro := js " I believe addressing this could lead to better outcomes. Please let me know your thoughts." in
  let text := normalize text in
  intro ++ capitalize text ++ outro.

Definition wrapCalm (text : jsstring) : jsstring :=
  let intro := js "I understand there may be different perspectives here. " in
  let outro := js " I'd appreciate the opportunity to discuss this further when you have time." in
  let text := normalize text in
  intro ++ capitalize text ++ outro.

(** The closing of the source ends in the four characters U+F8FF, U+00FC,
    U+00F2, U+00E4. *)
Definition wrapFriendly (text : jsstring) : jsstring :=
  let intro := js "Hey! I wanted to chat about something. " in
  let outro := js " Would love to hear your take on this! " ++ [63743; 252; 242; 228] in
  let text := normalize text in
  intro ++ capitalize text ++ outro.

(** [text.match(/^[^.!?]+[.!?]/)?.[0] || text.substring(0, 100)]: a match
    is never the empty string. *)
Definition first_sentence (text : jsstring) : jsstring :=
  match match_first_sentence text with
  | Some m => m
  | None => firstn 100 text
  end.

Definition wrapShort (text : jsstring) : jsstring :=
  let text := normalize text in
  let firstSentence := first_sentence text in
  js "Quick note: " ++ trim firstSentence ++ js " Let's discuss.".

Definition applyRewriteRules (text tone : jsstring) : jsstring :=
  let result := soften text in
  if jsstring_eqb tone (js "professional") then wrapProfessional result
  else if jsstring_eqb tone (js "calm") then wrapCalm result
  else if jsstring_eqb tone (js "friendly") then wrapFriendly result
  else if jsstring_eqb tone (js "short") then wrapShort result
  else result.

End Runtime.

(** ** JavaScript values and numbers *)

(** [String.prototype.startsWith] and [String.prototype.includes]. *)
Fixpoint startsWith (s p : jsstring) {struct p} : bool :=
  match p, s with
  | [], _ => true
  | x :: p', y :: s' => (x =? y) && startsWith s' p'
  | _ :: _, [] => false
  end.

Fixpoint includes (s sub : jsstring) : bool :=
  startsWith s sub
  || match s with
     | [] => false
     | _ :: s' => includes s' sub
     end.

(** A Number is an IEEE 754 binary64 value. *)
Definition number := spec_float.

Definition number_of_Z (z : Z) : number := binary_normalize 53 1024 z 0 false.

(** The Number a decimal literal [m / 10^k] denotes: the quotient of two
    exactly represented integers, rounded to nearest. *)
Definition decimal (m : Z) (k : nat) : number :=
  SFdiv 53 1024 (number_of_Z m) (number_of_Z (10 ^ Z.of_nat k)).

Definition NaN : number := S754_nan.

Definition number_mul (x y : number) : number := SFmul 53 1024 x y.

(** [Math.round]: the integer nearest to [x], a tie going to the greater
    one; NaN, the infinities, the zeros and the integers are returned as
    they are, and a result of zero keeps the sign of [x]. *)
Definition Math_round (x : number) : number :=
  match x with
  | S754_finite s m e =>
      if (0 <=? e)%Z then x
      else
        let v := cond_Zopp s (Zpos m) in
        let r := ((2 * v + 2 ^ (- e)) / 2 ^ (1 - e))%Z in
        if (r =? 0)%Z then S754_zero s else number_of_Z r
  | _ => x
  end.

#[warnings="-register-all"]
Inductive js_value :=
| JUndefined
| JNull
| JBool (b : bool)
| JNumber (x : number)
| JString (s : jsstring)
| JArray (items : list js_value)
| JObject (fields : list (jsstring * js_value)).

(** ToBoolean. *)
Definition truthy (v : js_value) : bool :=
  match v with
  | JUndefined | JNull => false
  | JBool b => b
  | JNumber (S754_zero _) | JNumber S754_nan => false
  | JNumber _ => true
  | JString [] => false
  | JString _ => true
  | JArray _ | JObject _ => true
  end.

(** [typeof v === 'string']. *)
Definition typeof_string (v : js_value) : bool :=
  match v with
  | JString _ => true
  | _ => false
  end.

Definition string_of (v : js_value) : jsstring :=
  match v with
  | JString s => s
  | _ => []
  end.

Fixpoint lookup (key : jsstring) (fields : list (jsstring * js_value))
  : js_value :=
  match fields with
  | [] => JUndefined
  | (k, v) :: rest => if jsstring_eqb k key then v else lookup key rest
  end.

(** What is thrown: an object whose [message] is a string, or has none. *)
Record thrown := { message : option jsstring }.

Definition Error (msg : jsstring) : thrown := {| message := Some msg |}.

Definition result (A : Type) : Type := (thrown + A)%type.

Definition bind {A B : Type} (m : result A) (k : A -> result B)
  : result B :=
  match m with
  | inl e => inl e
  | inr a => k a
  end.

Notation "x <- m ;; k" := (bind m (fun x => k))
  (at level 61, m at next level, right associativity).

(** [v.key] for a named property no string, array or primitive has of its
    own: a TypeError on [undefined] and [null] (in V8's words). *)
Definition get_property (v : js_value) (key : jsstring) : result js_value :=
  match v with
  | JUndefined =>
      inl (Error (js "Cannot read properties of undefined (reading '"
                  ++ key ++ js "')"))
  | JNull =>
      inl (Error (js "Cannot read properties of null (reading '"
                  ++ key ++ js "')"))
  | JObject fields => inr (lookup key fields)
  | _ => inr JUndefined
  end.

(** [v?.[1]]. *)
Definition optional_index_1 (v : js_value) : js_value :=
  match v with
  | JArray items => nth 1 items JUndefined
  | JString s =>
      match s with
      | _ :: c :: _ => JString [c]
      | _ => JUndefined
      end
  | JObject fields => lookup (js "1") fields
  | _ => JUndefined
  end.

(** An array holds [v] ([Array.prototype.includes] on an array of strings). *)
Definition array_includes (items : list jsstring) (v : js_value) : bool :=
  match v with
  | JString s => existsb (jsstring_eqb s) items
  | _ => false
  end.

(** What the handlers use of the JavaScript runtime. *)
Record runtime := {
  toUpperCase : N -> jsstring;
  (** [JSON.parse], with the conversion of its argument to a string *)
  JSON_parse : js_value -> result js_value;
  (** ToNumber of a string, an array or an object *)
  ToNumber_text : js_value -> number
}.

Definition ToNumber (rt : runtime) (v : js_value) : number :=
  match v with
  | JUndefined => NaN
  | JNull => S754_zero false
  | JBool true => number_of_Z 1
  | JBool false => S754_zero false
  | JNumber x => x
  | _ => ToNumber_text rt v
  end.

(** The process environment and the remote scoring service. *)
Record world := {
  HF_TOKEN : option jsstring;
  (** [Client.connect(space, { hf_token })]: an error, or a client *)
  Client_connect : jsstring -> jsstring -> option thrown;
  (** [client.predict(endpoint, { msg, safer })] *)
  client_predict : jsstring -> jsstring -> js_value -> result js_value
}.

(** The properties of [req.body] the handlers read, once the body has been
    destructured ([JUndefined] when the body has none); the destructuring
    itself, which throws on a missing body, is [destructure] below. *)
Record request_body := {
  body_text : js_value;
  body_tone : js_value;
  body_safer : js_value
}.

Record response := { status : nat; body : js_value }.

Definition json_error (code : nat) (msg : string) : response :=
  {| status := code; body := JObject [(js "error", JString (js msg))] |}.

Definition json (v : js_value) : response := {| status := 200; body := v |}.

(** ** POST /api/moderate *)

(** The handler from [const toxicityDataStr = result.data?.[1]] on; [data]
    is [result.data]. *)
Definition moderate_score (rt : runtime) (data : js_value)
  : result response :=
  let toxicityDataStr := optional_index_1 data in
  if negb (truthy toxicityDataStr) then
    inl (Error (js "Unexpected API response format"))
  else
    toxicityData <- JSON_parse rt toxicityDataStr ;;
    toxicityScore <- get_property toxicityData (js "max_value") ;;
    let scorePct :=
      Math_round (number_mul (ToNumber rt toxicityScore) (number_of_Z 100)) in
    inr (json (JObject [(js "scorePct", JNumber scorePct);
                        (js "score01", toxicityScore);
                        (js "raw", data)])).

(** [const { text, safer = 0.1 } = req.body]. *)
Definition safer_of (req : request_body) : js_value :=
  match body_safer req with
  | JUndefined => JNumber (decimal 1 1)
  | v => v
  end.

(** The body of the [try] block. *)
Definition moderate_try (rt : runtime) (w : world) (req : request_body)
  : result response :=
  let text := body_text req in
  let safer := safer_of req in
  if negb (truthy text) || negb (typeof_string text) then
    inr (json_error 400
           "Invalid input: text field is required and must be a string")
  else if (List.length (trim (string_of text)) =? 0)%nat then
    inr (json_error 400 "Invalid input: text cannot be empty")
  else if (5000 <? List.length (string_of text))%nat then
    inr (json_error 400
           "Invalid input: text is too long (max 5000 characters)")
  else
    match HF_TOKEN w with
    | None | Some [] =>
        inr (json_error 500 "Server configuration error: HF_TOKEN not set")
    | Some token =>
        match Client_connect w (js "duchaba/Friendly_Text_Moderation") token
        with
        | Some e => inl e
        | None =>
            res <- client_predict w (js "/fetch_toxicity_level")
                     (string_of text) safer ;;
            data <- get_property res (js "data") ;;
            moderate_score rt data
        end
    end.

(** The [catch] block: [error.message?.includes('connect')]. *)
Definition moderate_catch (error : thrown) : response :=
  match message error with
  | Some msg =>
      if includes msg (js "connect") then
        json_error 503
          "Unable to connect to moderation service. Please try again."
      else json_error 500 "Failed to analyze message. Please try again."
  | None => json_error 500 "Failed to analyze message. Please try again."
  end.

(** The handler on a body that has been destructured ([post_moderate]
    below starts from [req.body]). *)
Definition moderate (rt : runtime) (w : world) (req : request_body)
  : response :=
  match moderate_try rt w req with
  | inr res => res
  | inl error => moderate_catch error
  end.

(** ** POST /api/rewrite *)

Definition tones : list jsstring :=
  [js "professional"; js "calm"; js "friendly"; js "short"].

(** The [try] block after the destructuring, as a function of the body. *)
Definition rewrite_try (rt : runtime) (req : request_body)
  : result response :=
  let text := body_text req in
  let tone := body_tone req in
  if negb (truthy text) || negb (typeof_string text) then
    inr (json_error 400
           "Invalid input: text field is required and must be a string")
  else if negb (truthy tone) || negb (array_includes tones tone) then
    inr (json_error 400
           "Invalid input: tone must be one of: professional, calm, friendly, short")
  else
    let rewritten :=
      applyRewriteRules (toUpperCase rt) (string_of text) (string_of tone) in
    inr (json (JObject [(js "rewritten", JString rewritten);
                        (js "tone", tone)])).

(** The handler on a body that has been destructured ([post_rewrite] below
    starts from [req.body] and runs in the engine state). *)
Definition rewrite (rt : runtime) (req : request_body) : response :=
  match rewrite_try rt req with
  | inr res => res
  | inl _ => json_error 500 "Failed to rewrite message. Please try again."
  end.

(** ** RegExp objects *)

(** The global pattern literals of the source: [/\b(a1|a2|...)\b/gi] and
    [/\s+/g]. *)
Inductive regexp_source :=
| Alternatives (alts : list jsstring)
| WhitespaceRun.

(** The length of the longest run of whitespace at the start of [s]. *)
Fixpoint whitespace_run (s : jsstring) : nat :=
  match s with
  | [] => O
  | c :: rest => if isWhiteSpace c then S (whitespace_run rest) else O
  end.

(** A match attempt of a pattern at one position: the length of the match.
    [\s+] is greedy and nothing follows it. *)
Definition source_exec (src : regexp_source) (prev : option N)
  (s : jsstring) : option nat :=
  match src with
  | Alternatives alts => regexp_exec alts prev s
  | WhitespaceRun =>
      match whitespace_run s with
      | O => None
      | n => Some n
      end
  end.

(** A RegExp object: the pattern of its literal and its mutable
    [lastIndex]. *)
Record RegExp := { source : regexp_source; lastIndex : nat }.

(** The RegExp objects of the engine, by address; [next] is the first
    address not yet in use. *)
Record heap := { next : nat; cell : nat -> RegExp }.

(** Evaluating a pattern literal makes a new object, with [lastIndex] 0. *)
Definition alloc (h : heap) (src : regexp_source) : heap * nat :=
  ({| next := S (next h);
      cell := fun a =>
        if (a =? next h)%nat then {| source := src; lastIndex := 0 |}
        else cell h a |},
   next h).

Definition set_lastIndex (h : heap) (a i : nat) : heap :=
  {| next := next h;
     cell := fun x =>
       if (x =? a)%nat
       then {| source := source (cell h a); lastIndex := i |}
       else cell h x |}.

(** The character before index [i] of [text]. *)
Definition char_before (text : jsstring) (i : nat) : option N :=
  match i with
  | O => None
  | S j => nth_error text j
  end.

(** The first index from [i] on where the pattern matches; [s] is the input
    from index [i] on.  The end of the input is tried too. *)
Fixpoint search (src : regexp_source) (prev : option N) (i : nat)
  (s : jsstring) : option (nat * nat) :=
  match source_exec src prev s with
  | Some n => Some (i, n)
  | None =>
      match s with
      | [] => None
      | c :: rest => search src (Some c) (S i) rest
      end
  end.

(** RegExpBuiltinExec for a global pattern: the search starts at the
    object's [lastIndex]; a match (its index and length) moves [lastIndex]
    to its end, a failure sets [lastIndex] to 0. *)
Definition RegExpExec (h : heap) (a : nat) (text : jsstring)
  : heap * option (nat * nat) :=
  let rx := cell h a in
  let i := lastIndex rx in
  if (List.length text <? i)%nat then (set_lastIndex h a 0, None)
  else
    match search (source rx) (char_before text i) i (skipn i text) with
    | Some (p, n) => (set_lastIndex h a (p + n), Some (p, n))
    | None => (set_lastIndex h a 0, None)
    end.

(** The loop of [RegExp.prototype[Symbol.replace]] that gathers the
    matches; after an empty match [lastIndex] is advanced by one. *)
Fixpoint collect (fuel : nat) (h : heap) (a : nat) (text : jsstring)
  : option (heap * list (nat * nat)) :=
  match fuel with
  | O => None
  | S fuel' =>
      match RegExpExec h a text with
      | (h1, None) => Some (h1, [])
      | (h1, Some (p, n)) =>
          let h2 :=
            if (n =? 0)%nat
            then set_lastIndex h1 a (S (lastIndex (cell h1 a)))
            else h1 in
          match collect fuel' h2 a text with
          | Some (h3, results) => Some (h3, (p, n) :: results)
          | None => None
          end
      end
  end.

(** The result string: the input between the matches, each match replaced
    by the replacement text (which holds no [$] pattern). *)
Fixpoint substitute (text repl : jsstring) (nextSourcePosition : nat)
  (results : list (nat * nat)) : jsstring :=
  match results with
  | [] => skipn nextSourcePosition text
  | (p, n) :: results' =>
      if (nextSourcePosition <=? p)%nat
      then firstn (p - nextSourcePosition) (skipn nextSourcePosition text)
           ++ repl ++ substitute text repl (p + n) results'
      else substitute text repl nextSourcePosition results'
  end.

(** [text.replace(rx, repl)] for the global pattern object at address [a]:
    [lastIndex] is first set to 0. *)
Definition RegExp_replace (h : heap) (a : nat) (text repl : jsstring)
  : option (heap * jsstring) :=
  match collect (2 + List.length text) (set_lastIndex h a 0) a text with
  | Some (h1, results) => Some (h1, substitute text repl 0 results)
  | None => None
  end.

(** Evaluating the array literal [aggressivePatterns]: one new pattern
    object for each entry, kept with the entry's replacement. *)
Fixpoint alloc_patterns (h : heap) (rules : list rule)
  : heap * list (nat * jsstring) :=
  match rules with
  | [] => (h, [])
  | r :: rules' =>
      let (h1, a) := alloc h (Alternatives (pattern r)) in
      let (h2, objs) := alloc_patterns h1 rules' in
      (h2, (a, replacement r) :: objs)
  end.

(** [for (const { pattern, replacement } of aggressivePatterns)
      result = result.replace(pattern, replacement)]. *)
Fixpoint soften_loop (h : heap) (objs : list (nat * jsstring))
  (result : jsstring) : option (heap * jsstring) :=
  match objs with
  | [] => Some (h, result)
  | (a, repl) :: objs' =>
      match RegExp_replace h a result repl with
      | Some (h1, result1) => soften_loop h1 objs' result1
      | None => None
      end
  end.

(** [text.replace(/\s+/g, ' ').trim()] in the engine state [h]. *)
Definition normalize_run (h : heap) (text : jsstring)
  : option (heap * jsstring) :=
  let (h1, a) := alloc h WhitespaceRun in
  match RegExp_replace h1 a text [32] with
  | Some (h2, collapsed_text) => Some (h2, trim collapsed_text)
  | None => None
  end.

Definition wrapProfessional_run (toUpperCase : N -> jsstring) (h : heap)
  (text : jsstring) : option (heap * jsstring) :=
  let intro := js "I wanted to share some feedback regarding this matter. " in
  let outro := js " I believe addressing this could lead to better outcomes. Please let me know your thoughts." in
  match normalize_run h text with
  | Some (h1, text) => Some (h1, intro ++ capitalize toUpperCase text ++ outro)
  | None => None
  end.

Definition wrapCalm_run (toUpperCase : N -> jsstring) (h : heap)
  (text : jsstring) : option (heap * jsstring) :=
  let intro := js "I understand there may be different perspectives here. " in
  let outro := js " I'd appreciate the opportunity to discuss this further when you have time." in
  match normalize_run h text with
  | Some (h1, text) => Some (h1, intro ++ capitalize toUpperCase text ++ outro)
  | None => None
  end.

Definition wrapFriendly_run (toUpperCase : N -> jsstring) (h : heap)
  (text : jsstring) : option (heap * jsstring) :=
  let intro := js "Hey! I wanted to chat about something. " in
  let outro := js " Would love to hear your take on this! " ++ [63743; 252; 242; 228] in
  match normalize_run h text with
  | Some (h1, text) => Some (h1, intro ++ capitalize toUpperCase text ++ outro)
  | None => None
  end.

(** The pattern of [text.match] is not global: its [lastIndex] is neither
    read nor written, so the match is the function [first_sentence]. *)
Definition wrapShort_run (h : heap) (text : jsstring)
  : option (heap * jsstring) :=
  match normalize_run h text with
  | Some (h1, text) =>
      let firstSentence := first_sentence text in
      Some (h1, js "Quick note: " ++ trim firstSentence
                ++ js " Let's discuss.")
  | None => None
  end.

(** A call of [applyRewriteRules] in the engine state [h]: the new state
    and the returned string. *)
Definition applyRewriteRules_run (toUpperCase : N -> jsstring) (h : heap)
  (text tone : jsstring) : option (heap * jsstring) :=
  let (h1, objs) := alloc_patterns h aggressivePatterns in
  match soften_loop h1 objs text with
  | Some (h2, result) =>
      if jsstring_eqb tone (js "professional")
      then wrapProfessional_run toUpperCase h2 result
      else if jsstring_eqb tone (js "calm")
      then wrapCalm_run toUpperCase h2 result
      else if jsstring_eqb tone (js "friendly")
      then wrapFriendly_run toUpperCase h2 result
      else if jsstring_eqb tone (js "short") then wrapShort_run h2 result
      else Some (h2, result)
  | None => None
  end.

(** ** The handlers on [req.body] *)

(** [const { text, tone, safer } = req.body]: a TypeError when the body is
    [undefined] or [null] (in V8's words); a property the body does not
    have is [undefined]. *)
Definition destructure (b : js_value) : result request_body :=
  match b with
  | JUndefined =>
      inl (Error (js "Cannot destructure property 'text' of 'req.body' as it is undefined."))
  | JNull =>
      inl (Error (js "Cannot destructure property 'text' of 'req.body' as it is null."))
  | JObject fields =>
      inr {| body_text := lookup (js "text") fields;
             body_tone := lookup (js "tone") fields;
             body_safer := lookup (js "safer") fields |}
  | _ =>
      inr {| body_text := JUndefined; body_tone := JUndefined;
             body_safer := JUndefined |}
  end.

(** The moderate handler: the destructuring is the first step of the [try]
    block. *)
Definition post_moderate (rt : runtime) (w : world) (b : js_value)
  : response :=
  match req <- destructure b ;; moderate_try rt w req with
  | inr res => res
  | inl error => moderate_catch error
  end.

(** The [try] block of the rewrite handler after the destructuring, in the
    engine state [h]. *)
Definition rewrite_try_run (rt : runtime) (h : heap) (req : request_body)
  : option (heap * result response) :=
  let text := body_text req in
  let tone := body_tone req in
  if negb (truthy text) || negb (typeof_string text) then
    Some (h, inr (json_error 400
           "Invalid input: text field is required and must be a string"))
  else if negb (truthy tone) || negb (array_includes tones tone) then
    Some (h, inr (json_error 400
           "Invalid input: tone must be one of: professional, calm, friendly, short"))
  else
    match applyRewriteRules_run (toUpperCase rt) h (string_of text)
            (string_of tone) with
    | Some (h1, rewritten) =>
        Some (h1, inr (json (JObject [(js "rewritten", JString rewritten);
                                      (js "tone", tone)])))
    | None => None
    end.

(** The rewrite handler in the engine state [h]. *)
Definition post_rewrite (rt : runtime) (h : heap) (b : js_value)
  : option (heap * response) :=
  match destructure b with
  | inl _ =>
      Some (h, json_error 500 "Failed to rewrite message. Please try again.")
  | inr req =>
      match rewrite_try_run rt h req with
      | Some (h1, inr res) => Some (h1, res)
      | Some (h1, inl _) =>
          Some (h1,
                json_error 500 "Failed to rewrite message. Please try again.")
      | None => None
      end
  end.

(** ** The application *)

Inductive request :=
| PostModerate (b : js_value)
| PostRewrite (b : js_value).

Definition handle (rt : runtime) (w : world) (h : heap) (q : request)
  : option (heap * response) :=
  match q with
  | PostModerate b => Some (h, post_moderate rt w b)
  | PostRewrite b => post_rewrite rt h b
  end.

(** A run of the server: the engine state goes from each request to the
    next; each request meets the world of its time. *)
Fixpoint serve (rt : runtime) (h : heap) (trace : list (world * request))
  : option (heap * list response) :=
  match trace with
  | [] => Some (h, [])
  | (w, q) :: trace' =>
      match handle rt w h q with
      | Some (h1, res) =>
          match serve rt h1 trace' with
          | Some (h2, rs) => Some (h2, res :: rs)
          | None => None
          end
      | None => None
      end
  end.

(** * Definitions for the statements *)

(** The character before a position once [m] has been passed over. *)
Definition last_char (prev : option N) (m : jsstring) : option N :=
  fold_left (fun _ c => Some c) m prev.

(** An alternative of the source starts and ends with a word character. *)
Definition alt_ok (a : jsstring) : bool :=
  match a with
  | [] => false
  | c :: _ => isWordChar c && isWordChar (List.last a 0)
  end.

(** So does a replacement text. *)
Definition rule_ok (r : rule) : bool :=
  forallb alt_ok (pattern r) && alt_ok (replacement r).

(** The pattern matches at no position of [s]; [prev] is the character
    before [s]. *)
Fixpoint clean (alts : list jsstring) (prev : option N) (s : jsstring)
  : bool :=
  match s with
  | [] => true
  | c :: rest =>
      match regexp_exec alts prev s with
      | Some _ => false
      | None => clean alts (Some c) rest
      end
  end.

(** [lit_clash a t]: the literal [a] and the text [t] differ at a position
    that both have. *)
Fixpoint lit_clash (a t : jsstring) : bool :=
  match a, t with
  | pc :: a', c :: t' =>
      if canonicalize pc =? canonicalize c then lit_clash a' t' else true
  | _, _ => false
  end.

(** [inert_from alts pw t]: no alternative can match at a position of the
    text [t], whatever follows [t]; [pw] tells whether the character before
    is a word character. *)
Fixpoint inert_from (alts : list jsstring) (pw : bool) (t : jsstring)
  : bool :=
  match t with
  | [] => true
  | c :: t' =>
      ((pw && isWordChar c) || forallb (fun a => lit_clash a t) alts)
      && inert_from alts (isWordChar c) t'
  end.

(** [compat_from repl pw a]: wherever a word can start inside the literal
    [a], what is left of [a] clashes with the replacement text [repl]. *)
Fixpoint compat_from (repl : jsstring) (pw : bool) (a : jsstring) : bool :=
  match a with
  | [] => true
  | pc :: a' =>
      (pw || lit_clash a repl) && compat_from repl (isWordChar pc) a'
  end.

(** Every rule is well formed, and no pattern can match inside or across
    any replacement text. *)
Definition rules_compatible (rs : list rule) : bool :=
  forallb rule_ok rs
  && forallb (fun ri =>
       forallb (fun rj =>
         forallb (compat_from (replacement rj) false) (pattern ri)
         && inert_from (pattern ri) false (replacement rj)) rs) rs.

(** The loop of [soften] over any rule list. *)
Definition apply_rules (rs : list rule) (text : jsstring) : jsstring :=
  fold_left (fun result r => replace r result) rs text.

(** [w], up to case, is one of the alternatives. *)
Definition spells (alts : list jsstring) (w : jsstring) : bool :=
  existsb (fun a =>
    jsstring_eqb (List.map canonicalize a) (List.map canonicalize w)) alts.

(** [w], up to case, is a target of some rule. *)
Definition is_target (w : jsstring) : bool :=
  existsb (fun r => spells (pattern r) w) aggressivePatterns.

(** Every whitespace character is a single U+0020 ([in_run]: the character
    before was one). *)
Fixpoint collapsed (in_run : bool) (s : jsstring) : bool :=
  match s with
  | [] => true
  | c :: rest =>
      if isWhiteSpace c
      then (c =? 32) && negb in_run && collapsed true rest
      else collapsed false rest
  end.

(** A character, if there is one, is whitespace. *)
Definition optSpace (c : option N) : bool :=
  match c with
  | Some x => isWhiteSpace x
  | None => false
  end.

(** No whitespace at either end. *)
Definition trimmed (s : jsstring) : bool :=
  negb (optSpace (hd_error s)) && negb (optSpace (hd_error (rev s))).

(** The shape of a string after whitespace collapse and trim. *)
Definition normalized (s : jsstring) : bool := collapsed false s && trimmed s.

(** The fixed text each tone puts before and after the core. *)
Definition tone_prefix (tone : jsstring) : jsstring :=
  if jsstring_eqb tone (js "professional")
  then js "I wanted to share some feedback regarding this matter. "
  else if jsstring_eqb tone (js "calm")
  then js "I understand there may be different perspectives here. "
  else if jsstring_eqb tone (js "friendly")
  then js "Hey! I wanted to chat about something. "
  else js "Quick note: ".

Definition tone_suffix (tone : jsstring) : jsstring :=
  if jsstring_eqb tone (js "professional")
  then js " I believe addressing this could lead to better outcomes. Please let me know your thoughts."
  else if jsstring_eqb tone (js "calm")
  then js " I'd appreciate the opportunity to discuss this further when you have time."
  else if jsstring_eqb tone (js "friendly")
  then js " Would love to hear your take on this! " ++ [63743; 252; 242; 228]
  else js " Let's discuss.".

(** The body [{ text, tone }] of a rewrite request. *)
Definition rewrite_request (text tone : jsstring) : request_body :=
  {| body_text := JString text; body_tone := JString tone;
     body_safer := JUndefined |}.

(** The success answer [{ rewritten, tone }]. *)
Definition rewritten_response (rewritten tone : jsstring) : response :=
  json (JObject [(js "rewritten", JString rewritten);
                 (js "tone", JString tone)]).

(** A runtime that upper-cases ASCII letters and parses nothing. *)
Definition ascii_runtime : runtime :=
  {| toUpperCase := fun c => [canonicalize c];
     JSON_parse := fun v => inl (Error (js "Unexpected token"));
     ToNumber_text := fun _ => NaN |}.

(** A world without credential, whose service cannot be reached. *)
Definition offline_world : world :=
  {| HF_TOKEN := None;
     Client_connect := fun _ _ => Some (Error (js "fetch failed"));
     client_predict := fun _ _ _ => inl (Error (js "fetch failed")) |}.

(** The request passes validation, the credential is configured, and the
    remote service answers with a result whose [data] property is [data]. *)
Definition service_answers (w : world) (req : request_body)
  (data : js_value) : Prop :=
  exists s token res,
    body_text req = JString s
    /\ trim s <> []
    /\ (List.length s <= 5000)%nat
    /\ HF_TOKEN w = Some token
    /\ token <> []
    /\ Client_connect w (js "duchaba/Friendly_Text_Moderation") token = None
    /\ client_predict w (js "/fetch_toxicity_level") s (safer_of req)
       = inr res
    /\ get_property res (js "data") = inr data.

(** The success answer [{ scorePct, score01, raw }]. *)
Definition score_response (scorePct : number) (score01 data : js_value)
  : response :=
  json (JObject [(js "scorePct", JNumber scorePct);
                 (js "score01", score01);
                 (js "raw", data)]).

(** A world whose service answers every call with the payload [payload] in
    [data[1]], and a runtime whose [JSON.parse] gives [parsed]. *)
Definition scoring_world (payload : js_value) : world :=
  {| HF_TOKEN := Some (js "hf_secret");
     Client_connect := fun _ _ => None;
     client_predict := fun _ _ _ =>
       inr (JObject [(js "data", JArray [JNull; payload])]) |}.

Definition parsing_runtime (parsed : result js_value) : runtime :=
  {| toUpperCase := fun c => [canonicalize c];
     JSON_parse := fun _ => parsed;
     ToNumber_text := fun _ => NaN |}.

(** The body [{ text }] of a moderate request. *)
Definition moderate_request (text : jsstring) : request_body :=
  {| body_text := JString text; body_tone := JUndefined;
     body_safer := JUndefined |}.

(** The payload texts [{"label":1}] and [{"max_value":0.754}]. *)
Definition payload_without_score : js_value :=
  JString (js "{" ++ [34] ++ js "label" ++ [34] ++ js ":1}").

Definition payload_0754 : js_value :=
  JString (js "{" ++ [34] ++ js "max_value" ++ [34] ++ js ":0.754}").

(** The text of a moderate request passes the three validation steps. *)
Definition acceptable_text (req : request_body) : Prop :=
  exists s, body_text req = JString s /\ trim s <> []
            /\ (List.length s <= 5000)%nat.

(** The text and the tone of a rewrite request pass validation. *)
Definition acceptable_rewrite (req : request_body) : Prop :=
  exists text tone,
    body_text req = JString text /\ text <> []
    /\ body_tone req = JString tone /\ In tone tones.

(** The error answers of the moderate handler. *)
Definition moderate_errors : list response :=
  [ json_error 400
      "Invalid input: text field is required and must be a string";
    json_error 400 "Invalid input: text cannot be empty";
    json_error 400 "Invalid input: text is too long (max 5000 characters)";
    json_error 500 "Server configuration error: HF_TOKEN not set";
    json_error 503
      "Unable to connect to moderation service. Please try again.";
    json_error 500 "Failed to analyze message. Please try again." ].

(** A literal made of word characters and spaces only. *)
Definition spaced_words (a : jsstring) : bool :=
  forallb (fun pc => isWordChar pc || (pc =? 32)) a.

(** A character that no pattern can match: neither a word character nor a
    space. *)
Definition separator (c : N) : bool := negb (isWordChar c) && negb (c =? 32).

(** The scan of [replace_from] for any global pattern. *)
Fixpoint scan (src : regexp_source) (repl : jsstring) (prev : option N)
  (skip : nat) (s : jsstring) : jsstring :=
  match s with
  | [] => []
  | c :: rest =>
      match skip with
      | S k => scan src repl (Some c) k rest
      | O =>
          match source_exec src prev s with
          | Some n => repl ++ scan src repl (Some c) (Nat.pred n) rest
          | None => c :: scan src repl (Some c) O rest
          end
      end
  end.

(** The matches of a pattern in [s], whose first character has index [i]:
    their indices and lengths, in the order of the scan. *)
Fixpoint matches_from (src : regexp_source) (prev : option N)
  (skip i : nat) (s : jsstring) : list (nat * nat) :=
  match s with
  | [] => []
  | c :: rest =>
      match skip with
      | S k => matches_from src (Some c) k (S i) rest
      | O =>
          match source_exec src prev s with
          | Some n =>
              (i, n) :: matches_from src (Some c) (Nat.pred n) (S i) rest
          | None => matches_from src (Some c) O (S i) rest
          end
      end
  end.

(** The alternatives of a pattern are well formed. *)
Definition source_ok (src : regexp_source) : bool :=
  match src with
  | Alternatives alts => forallb alt_ok alts
  | WhitespaceRun => true
  end.

(** An engine state with no RegExp object yet. *)
Definition empty_heap : heap :=
  {| next := 0; cell := fun _ => {| source := WhitespaceRun; lastIndex := 0 |} |}.

(** The answer of the rewrite handler to the body [b]. *)
Definition rewrite_outcome (rt : runtime) (b : js_value) : response :=
  match destructure b with
  | inl _ => json_error 500 "Failed to rewrite message. Please try again."
  | inr req => rewrite rt req
  end.

(** The request bodies [{ text, tone }] and [{ text }]. *)
Definition rewrite_body (text tone : jsstring) : js_value :=
  JObject [(js "text", JString text); (js "tone", JString tone)].

Definition moderate_body (text : jsstring) : js_value :=
  JObject [(js "text", JString text)].

(** * Properties *)

(** ** Characters *)

Lemma lower_case_bounds (c : N) :
  (97 <=? c) && (c <=? 122) = true -> 97 <= c /\ c <= 122.
Proof.
  intros H. apply andb_prop in H. destruct H as [H1 H2].
  apply N.leb_le in H1. apply N.leb_le in H2. split; assumption.
Qed.

Lemma isWordChar_canonicalize (c : N) :
  isWordChar (canonicalize c) = isWordChar c.
Proof.
  unfold canonicalize.
  destruct ((97 <=? c) && (c <=? 122)) eqn:E; [|reflexivity].
  destruct (lower_case_bounds c E) as [H1 H2].
  unfold isWordChar. rewrite E, orb_true_r.
  assert (Hu : (65 <=? c - 32) && (c - 32 <=? 90) = true).
  { apply andb_true_intro. split; apply N.leb_le; lia. }
  rewrite Hu. rewrite orb_true_r. reflexivity.
Qed.

Lemma canonicalize_word (a b : N) :
  canonicalize a = canonicalize b -> isWordChar a = isWordChar b.
Proof.
  intros H. rewrite <- (isWordChar_canonicalize a), H.
  apply isWordChar_canonicalize.
Qed.

Lemma last_char_app (prev : option N) (m1 m2 : jsstring) :
  last_char prev (m1 ++ m2) = last_char (last_char prev m1) m2.
Proof. apply fold_left_app. Qed.

Lemma last_char_cons_indep (p q : option N) (c : N) (m : jsstring) :
  last_char p (c :: m) = last_char q (c :: m).
Proof. reflexivity. Qed.

Lemma hd_error_map_word (s s' : jsstring) :
  List.map canonicalize s = List.map canonicalize s' ->
  optWord (hd_error s) = optWord (hd_error s').
Proof.
  destruct s as [|c s], s' as [|c' s']; simpl; intros H;
    try discriminate; try reflexivity.
  injection H as H _. apply canonicalize_word. exact H.
Qed.

(** ** What a successful match looks like *)

Lemma match_literal_inv (a : jsstring) :
  forall prev s l rest,
    match_literal a prev s = Some (l, rest) ->
    exists m, s = m ++ rest /\ List.length m = List.length a
              /\ List.map canonicalize m = List.map canonicalize a
              /\ l = last_char prev m.
Proof.
  induction a as [|pc a IH]; intros prev s l rest H; simpl in H.
  - injection H as <- <-. exists []. repeat split; reflexivity.
  - destruct s as [|c s]; [discriminate|].
    destruct (N.eqb_spec (canonicalize pc) (canonicalize c)) as [E|E];
      [|discriminate].
    destruct (IH _ _ _ _ H) as (m & -> & Hl & Hm & ->).
    exists (c :: m). simpl. rewrite Hl, Hm, E. repeat split; reflexivity.
Qed.

Lemma match_literal_complete (a : jsstring) :
  forall prev m rest,
    List.map canonicalize m = List.map canonicalize a ->
    match_literal a prev (m ++ rest) = Some (last_char prev m, rest).
Proof.
  induction a as [|pc a IH]; intros prev m rest H.
  - destruct m; [reflexivity|discriminate].
  - destruct m as [|c m]; [discriminate|]. simpl in H. injection H as Hc Hm.
    simpl. rewrite Hc, N.eqb_refl. apply IH. exact Hm.
Qed.

Lemma last_char_last (prev : option N) (c : N) (m : jsstring) :
  last_char prev (c :: m) = Some (List.last (c :: m) 0).
Proof.
  revert prev c. induction m as [|d m IH]; intros prev c; [reflexivity|].
  change (last_char (Some c) (d :: m) = Some (List.last (d :: m) 0)).
  apply IH.
Qed.

Lemma last_map_word (m a : jsstring) :
  List.map canonicalize m = List.map canonicalize a ->
  isWordChar (List.last m 0) = isWordChar (List.last a 0).
Proof.
  revert a. induction m as [|c m IH]; intros [|pc a] H; try discriminate;
    [reflexivity|].
  simpl in H. injection H as Hc Hm.
  destruct m as [|d m], a as [|pd a]; try discriminate.
  - simpl. apply canonicalize_word. exact Hc.
  - change (isWordChar (List.last (d :: m) 0)
            = isWordChar (List.last (pd :: a) 0)).
    apply IH. exact Hm.
Qed.

Lemma match_alternatives_inv (alts : list jsstring) (prev : option N)
  (s : jsstring) (n : nat) :
  match_alternatives alts prev s = Some n ->
  exists a m rest,
    In a alts /\ s = m ++ rest /\ List.length m = n
    /\ List.map canonicalize m = List.map canonicalize a
    /\ word_boundary (last_char prev m) (hd_error rest) = true.
Proof.
  induction alts as [|a alts IH]; simpl; [discriminate|].
  intros H.
  assert (Hrec : match_alternatives alts prev s = Some n ->
                 exists a0 m rest,
                   (a = a0 \/ In a0 alts) /\ s = m ++ rest
                   /\ List.length m = n
                   /\ List.map canonicalize m = List.map canonicalize a0
                   /\ word_boundary (last_char prev m) (hd_error rest) = true).
  { intros H'. destruct (IH H') as (a0 & m & rest & Hin & Hrest).
    exists a0, m, rest. split; [right; exact Hin|exact Hrest]. }
  destruct (match_literal a prev s) as [[l rest]|] eqn:E; [|auto].
  destruct (word_boundary l (hd_error rest)) eqn:B; [|auto].
  injection H as <-.
  destruct (match_literal_inv _ _ _ _ _ E) as (m & -> & Hl & Hm & ->).
  exists a, m, rest. repeat split; auto.
Qed.

(** A match of a well-formed pattern: the matched text [m] is not empty,
    starts after a non-word character (or at the start), ends with a word
    character and is followed by a non-word character (or the end). *)
Lemma regexp_exec_inv (alts : list jsstring) (prev : option N)
  (s : jsstring) (n : nat) :
  forallb alt_ok alts = true ->
  regexp_exec alts prev s = Some n ->
  exists a c m rest,
    In a alts /\ s = (c :: m) ++ rest /\ List.length (c :: m) = n
    /\ List.map canonicalize (c :: m) = List.map canonicalize a
    /\ optWord prev = false /\ isWordChar c = true
    /\ isWordChar (List.last (c :: m) 0) = true
    /\ optWord (hd_error rest) = false.
Proof.
  intros Hok H. unfold regexp_exec in H.
  destruct (word_boundary prev (hd_error s)) eqn:B; [|discriminate].
  destruct (match_alternatives_inv _ _ _ _ H)
    as (a & m & rest & Hin & -> & Hl & Hm & Hb).
  rewrite forallb_forall in Hok. specialize (Hok a Hin).
  destruct a as [|pc a]; [discriminate|].
  destruct m as [|c m]; [discriminate|].
  unfold alt_ok in Hok. apply andb_prop in Hok. destruct Hok as [Hf Hlast].
  assert (Hc : isWordChar c = true).
  { simpl in Hm. injection Hm as Hc _.
    rewrite (canonicalize_word c pc Hc). exact Hf. }
  assert (Hlm : isWordChar (List.last (c :: m) 0) = true).
  { rewrite (last_map_word _ _ Hm). exact Hlast. }
  exists (pc :: a), c, m, rest. repeat split; auto.
  - unfold word_boundary in B. cbn [app hd_error optWord] in B.
    rewrite Hc in B.
    destruct (optWord prev); [discriminate|reflexivity].
  - rewrite last_char_last in Hb. unfold word_boundary in Hb.
    cbn [optWord] in Hb. rewrite Hlm in Hb.
    destruct (optWord (hd_error rest)); [discriminate|reflexivity].
Qed.

(** ** Equations of the scan *)

Lemma replace_from_skip (r : rule) (m : jsstring) :
  forall prev rest,
    replace_from r prev (List.length m) (m ++ rest)
    = replace_from r (last_char prev m) O rest.
Proof.
  induction m as [|c m IH]; intros prev rest; [reflexivity|].
  simpl. apply IH.
Qed.

Lemma replace_from_match (r : rule) (prev : option N) (c : N)
  (m rest : jsstring) :
  regexp_exec (pattern r) prev ((c :: m) ++ rest)
  = Some (List.length (c :: m)) ->
  replace_from r prev O ((c :: m) ++ rest)
  = replacement r ++ replace_from r (last_char prev (c :: m)) O rest.
Proof.
  intros H. cbn [app replace_from]. cbn [app] in H. rewrite H.
  cbn [List.length Nat.pred]. rewrite replace_from_skip. reflexivity.
Qed.

Lemma replace_from_nomatch (r : rule) (prev : option N) (c : N)
  (rest : jsstring) :
  regexp_exec (pattern r) prev (c :: rest) = None ->
  replace_from r prev O (c :: rest) = c :: replace_from r (Some c) O rest.
Proof. intros H. cbn [replace_from]. rewrite H. reflexivity. Qed.

(** Only whether the character before is a word character matters. *)
Lemma match_alternatives_prev (alts : list jsstring) (p q : option N)
  (s : jsstring) :
  optWord p = optWord q ->
  match_alternatives alts p s = match_alternatives alts q s.
Proof.
  intros Hpq. induction alts as [|a alts IH]; [reflexivity|].
  destruct a as [|pc a]; cbn [match_alternatives match_literal].
  - unfold word_boundary. rewrite Hpq, IH. reflexivity.
  - destruct s as [|c s]; [exact IH|].
    destruct (canonicalize pc =? canonicalize c); [|exact IH].
    rewrite IH. reflexivity.
Qed.

Lemma regexp_exec_prev (alts : list jsstring) (p q : option N)
  (s : jsstring) :
  optWord p = optWord q -> regexp_exec alts p s = regexp_exec alts q s.
Proof.
  intros Hpq. unfold regexp_exec, word_boundary.
  rewrite Hpq, (match_alternatives_prev alts p q s Hpq). reflexivity.
Qed.

(** ** Strings on which a pattern matches nowhere *)

Lemma clean_prev (alts : list jsstring) (p q : option N) (s : jsstring) :
  optWord p = optWord q -> clean alts p s = clean alts q s.
Proof.
  intros Hpq. destruct s as [|c s]; [reflexivity|].
  cbn [clean]. rewrite (regexp_exec_prev alts p q _ Hpq). reflexivity.
Qed.

Lemma clean_replace_from (r : rule) (s : jsstring) :
  forall prev,
    clean (pattern r) prev s = true -> replace_from r prev O s = s.
Proof.
  induction s as [|c s IH]; intros prev H; [reflexivity|].
  cbn [clean] in H.
  destruct (regexp_exec (pattern r) prev (c :: s)) eqn:E; [discriminate|].
  rewrite (replace_from_nomatch _ _ _ _ E), (IH _ H). reflexivity.
Qed.

Lemma clean_skip (alts : list jsstring) (m : jsstring) :
  forall prev s,
    clean alts prev (m ++ s) = true -> clean alts (last_char prev m) s = true.
Proof.
  induction m as [|c m IH]; intros prev s H; [exact H|].
  cbn [app clean] in H.
  destruct (regexp_exec alts prev (c :: m ++ s)); [discriminate|].
  apply (IH (Some c)). exact H.
Qed.

Lemma lit_clash_no_match (a : jsstring) :
  forall t prev y,
    lit_clash a t = true -> match_literal a prev (t ++ y) = None.
Proof.
  induction a as [|pc a IH]; intros t prev y H; [discriminate|].
  destruct t as [|c t]; [discriminate|].
  cbn [lit_clash] in H. cbn [app match_literal].
  destruct (canonicalize pc =? canonicalize c); [|reflexivity].
  apply IH. exact H.
Qed.

Lemma clash_no_alternative (alts : list jsstring) (t : jsstring)
  (prev : option N) (y : jsstring) :
  forallb (fun a => lit_clash a t) alts = true ->
  match_alternatives alts prev (t ++ y) = None.
Proof.
  induction alts as [|a alts IH]; intros H; [reflexivity|].
  cbn [forallb] in H. apply andb_prop in H. destruct H as [Ha Hr].
  cbn [match_alternatives]. rewrite (lit_clash_no_match _ _ _ _ Ha).
  apply IH. exact Hr.
Qed.

Lemma inert_clean (alts : list jsstring) (t : jsstring) :
  forall prev y,
    inert_from alts (optWord prev) t = true ->
    clean alts prev (t ++ y) = clean alts (last_char prev t) y.
Proof.
  induction t as [|c t IH]; intros prev y H; [reflexivity|].
  cbn [inert_from] in H. apply andb_prop in H. destruct H as [H1 H2].
  cbn [app clean].
  assert (E : regexp_exec alts prev (c :: t ++ y) = None).
  { unfold regexp_exec. apply orb_prop in H1. destruct H1 as [H1|H1].
    - apply andb_prop in H1. destruct H1 as [Hp Hc].
      unfold word_boundary. cbn [hd_error optWord]. rewrite Hp, Hc.
      reflexivity.
    - destruct (word_boundary prev (hd_error (c :: t ++ y)));
        [|reflexivity].
      apply (clash_no_alternative alts (c :: t) prev y H1). }
  rewrite E. apply (IH (Some c)). exact H2.
Qed.

Lemma compat_from_weaken (repl : jsstring) (pw : bool) (a : jsstring) :
  compat_from repl false a = true -> compat_from repl pw a = true.
Proof.
  destruct a as [|pc a]; [reflexivity|]. cbn [compat_from]. intros H.
  apply andb_prop in H. destruct H as [H1 H2].
  rewrite H2. cbn [orb] in H1. rewrite H1.
  destruct pw; reflexivity.
Qed.

(** ** One pass creates no match *)

Section OnePass.

Variable r : rule.
Hypothesis r_ok : rule_ok r = true.

Lemma pattern_ok : forallb alt_ok (pattern r) = true.
Proof. apply andb_prop in r_ok. apply r_ok. Qed.

Lemma replacement_ok :
  exists rc rt, replacement r = rc :: rt /\ isWordChar rc = true
                /\ isWordChar (List.last (rc :: rt) 0) = true.
Proof.
  apply andb_prop in r_ok. destruct r_ok as [_ H].
  destruct (replacement r) as [|rc rt]; [discriminate|].
  apply andb_prop in H. destruct H as [H1 H2].
  exists rc, rt. repeat split; assumption.
Qed.

Lemma replace_from_head_word (prev : option N) (s : jsstring) :
  optWord (hd_error (replace_from r prev O s)) = optWord (hd_error s).
Proof.
  destruct s as [|c s]; [reflexivity|].
  destruct (regexp_exec (pattern r) prev (c :: s)) as [n|] eqn:E.
  - destruct (regexp_exec_inv _ _ _ _ pattern_ok E)
      as (a & c0 & m & rest & _ & Hs & _ & _ & _ & Hc & _ & _).
    injection Hs as <- _.
    cbn [replace_from]. rewrite E.
    destruct replacement_ok as (rc & rt & -> & Hrc & _).
    cbn [app hd_error optWord]. rewrite Hrc, Hc. reflexivity.
  - rewrite (replace_from_nomatch _ _ _ _ E). reflexivity.
Qed.

(** A literal that matches in the output of the pass, and keeps clear of
    the replacement text, matched the same characters of the input. *)
Lemma transfer_literal (a : jsstring) :
  forall prev s l ro,
    compat_from (replacement r) (optWord prev) a = true ->
    match_literal a prev (replace_from r prev O s) = Some (l, ro) ->
    exists ri, match_literal a prev s = Some (l, ri)
               /\ ro = replace_from r l O ri.
Proof.
  induction a as [|pc a IH]; intros prev s l ro Hc H.
  - cbn [match_literal] in H. injection H as <- <-.
    exists s. split; reflexivity.
  - destruct s as [|c s]; [discriminate|].
    cbn [compat_from] in Hc. apply andb_prop in Hc.
    destruct Hc as [Hc1 Hc2].
    destruct (regexp_exec (pattern r) prev (c :: s)) as [n|] eqn:E.
    + exfalso.
      destruct (regexp_exec_inv _ _ _ _ pattern_ok E)
        as (a0 & c0 & m & rest & _ & Hs & Hn & _ & Hp & _ & _ & _).
      rewrite Hs in H, E. rewrite <- Hn in E.
      rewrite (replace_from_match _ _ _ _ _ E) in H.
      rewrite Hp in Hc1. cbn [orb] in Hc1.
      rewrite (lit_clash_no_match _ _ _ _ Hc1) in H. discriminate.
    + rewrite (replace_from_nomatch _ _ _ _ E) in H.
      cbn [match_literal] in H. cbn [match_literal].
      destruct (N.eqb_spec (canonicalize pc) (canonicalize c)) as [Ec|Ec];
        [|discriminate].
      apply (IH (Some c)); [|exact H].
      cbn [optWord]. rewrite <- (canonicalize_word _ _ Ec). exact Hc2.
Qed.

Variable alts : list jsstring.
Hypothesis alts_compat :
  forallb (compat_from (replacement r) false) alts = true.
Hypothesis alts_inert : inert_from alts false (replacement r) = true.

Lemma transfer_alternatives (prev : option N) (s : jsstring) :
  match_alternatives alts prev s = None ->
  match_alternatives alts prev (replace_from r prev O s) = None.
Proof.
  revert alts_compat. clear alts_inert.
  induction alts as [|a l IH]; intros Hc H; [reflexivity|].
  cbn [forallb] in Hc. apply andb_prop in Hc. destruct Hc as [Ha Hl].
  cbn [match_alternatives] in H. cbn [match_alternatives].
  destruct (match_literal a prev (replace_from r prev O s))
    as [[l' ro]|] eqn:Eo.
  - destruct (transfer_literal a prev s l' ro
                (compat_from_weaken _ _ _ Ha) Eo) as (ri & Ei & ->).
    rewrite Ei in H.
    unfold word_boundary in H |- *. rewrite replace_from_head_word.
    destruct (xorb (optWord l') (optWord (hd_error ri)));
      [discriminate|].
    apply IH; assumption.
  - apply IH; [exact Hl|].
    destruct (match_literal a prev s) as [[l0 ri]|]; [|exact H].
    destruct (word_boundary l0 (hd_error ri)); [discriminate|exact H].
Qed.

Lemma transfer_exec (prev : option N) (s : jsstring) :
  regexp_exec alts prev s = None ->
  regexp_exec alts prev (replace_from r prev O s) = None.
Proof.
  unfold regexp_exec, word_boundary. rewrite replace_from_head_word.
  destruct (xorb (optWord prev) (optWord (hd_error s))); [|reflexivity].
  apply transfer_alternatives.
Qed.

(** The pass removes every match of its own pattern, and gives no match
    to a pattern that had none. *)
Lemma clean_pass_bounded (n : nat) :
  forall s prev,
    (List.length s <= n)%nat ->
    clean alts prev s = true \/ alts = pattern r ->
    clean alts prev (replace_from r prev O s) = true.
Proof.
  induction n as [|n IH]; intros s prev Hlen H.
  - destruct s; [reflexivity|simpl in Hlen; lia].
  - destruct s as [|c s]; [reflexivity|].
    destruct (regexp_exec (pattern r) prev (c :: s)) as [k|] eqn:E.
    + destruct (regexp_exec_inv _ _ _ _ pattern_ok E)
        as (a0 & c0 & m & rest & _ & Hs & Hk & _ & Hp & _ & Hlast & _).
      rewrite Hs in E, H, Hlen |- *. rewrite <- Hk in E.
      rewrite (replace_from_match _ _ _ _ _ E).
      rewrite inert_clean by (rewrite Hp; exact alts_inert).
      destruct replacement_ok as (rc & rt & -> & _ & Hrl).
      rewrite (clean_prev alts _ (last_char prev (c0 :: m))).
      * apply IH.
        -- rewrite length_app in Hlen. simpl in Hlen. lia.
        -- destruct H as [H|H]; [left|right; exact H].
           apply clean_skip. exact H.
      * rewrite !last_char_last. cbn [optWord]. rewrite Hrl, Hlast.
        reflexivity.
    + assert (E' : regexp_exec alts prev (c :: s) = None).
      { destruct H as [H| ->]; [|exact E].
        cbn [clean] in H.
        destruct (regexp_exec alts prev (c :: s)); [discriminate|].
        reflexivity. }
      pose proof (transfer_exec prev (c :: s) E') as T.
      rewrite (replace_from_nomatch _ _ _ _ E) in T |- *.
      cbn [clean]. rewrite T. apply IH.
      * simpl in Hlen. lia.
      * destruct H as [H|H]; [left|right; exact H].
        cbn [clean] in H. rewrite E' in H. exact H.
Qed.

Lemma clean_pass (s : jsstring) :
  clean alts None s = true \/ alts = pattern r ->
  clean alts None (replace r s) = true.
Proof. apply (clean_pass_bounded (List.length s)). lia. Qed.

End OnePass.

(** ** The whole rule list *)

Lemma aggressivePatterns_compatible :
  rules_compatible aggressivePatterns = true.
Proof. vm_compute. reflexivity. Qed.

Section RuleList.

Variable all : list rule.
Hypothesis all_ok : rules_compatible all = true.

Lemma all_rule_ok (r : rule) : In r all -> rule_ok r = true.
Proof.
  intros H. apply andb_prop in all_ok. destruct all_ok as [H1 _].
  rewrite forallb_forall in H1. apply H1. exact H.
Qed.

Lemma all_pairs (ri rj : rule) :
  In ri all -> In rj all ->
  forallb (compat_from (replacement rj) false) (pattern ri) = true
  /\ inert_from (pattern ri) false (replacement rj) = true.
Proof.
  intros Hi Hj. apply andb_prop in all_ok. destruct all_ok as [_ H2].
  rewrite forallb_forall in H2. specialize (H2 ri Hi).
  rewrite forallb_forall in H2. specialize (H2 rj Hj).
  apply andb_prop in H2. exact H2.
Qed.

Lemma apply_rules_clean (rs : list rule) :
  forall t ri,
    incl rs all -> In ri all ->
    clean (pattern ri) None t = true \/ In ri rs ->
    clean (pattern ri) None (apply_rules rs t) = true.
Proof.
  induction rs as [|r rs IH]; intros t ri Hincl Hi H.
  - destruct H as [H|[]]. exact H.
  - assert (Hr : In r all) by (apply Hincl; left; reflexivity).
    destruct (all_pairs ri r Hi Hr) as [Hc Hn].
    cbn [apply_rules fold_left]. apply IH; [|exact Hi|].
    + intros x Hx. apply Hincl. right. exact Hx.
    + destruct H as [H|[H|H]].
      * left. apply (clean_pass r (all_rule_ok r Hr) _ Hc Hn). left.
        exact H.
      * left. apply (clean_pass r (all_rule_ok r Hr) _ Hc Hn). right.
        rewrite H. reflexivity.
      * right. exact H.
Qed.

Lemma apply_rules_unchanged (rs : list rule) (x : jsstring) :
  (forall r, In r rs -> clean (pattern r) None x = true) ->
  apply_rules rs x = x.
Proof.
  induction rs as [|r rs IH]; intros H; [reflexivity|].
  cbn [apply_rules fold_left]. unfold replace.
  rewrite clean_replace_from by (apply H; left; reflexivity).
  apply IH. intros r' Hr'. apply H. right. exact Hr'.
Qed.

Lemma apply_rules_idempotent (t : jsstring) :
  apply_rules all (apply_rules all t) = apply_rules all t.
Proof.
  apply apply_rules_unchanged. intros r Hr.
  apply apply_rules_clean; [apply incl_refl|exact Hr|right; exact Hr].
Qed.

End RuleList.

Lemma soften_clean (t : jsstring) (r : rule) :
  In r aggressivePatterns -> clean (pattern r) None (soften t) = true.
Proof.
  intros Hr.
  apply (apply_rules_clean _ aggressivePatterns_compatible);
    [apply incl_refl|exact Hr|right; exact Hr].
Qed.

(** C3. The softening phase is idempotent: running the ordered rule list on
    its own output changes nothing, for every input string; and every
    replacement text is left as it is, so none is itself a rewrite target. *)
Theorem soften_idempotent :
  (forall t : jsstring, soften (soften t) = soften t)
  /\ Forall (fun r => soften (replacement r) = replacement r)
       aggressivePatterns.
Proof.
  split.
  - intros t.
    apply (apply_rules_idempotent _ aggressivePatterns_compatible).
  - unfold aggressivePatterns. repeat constructor; vm_compute; reflexivity.
Qed.

(** ** Matching looks at letters up to case only *)

Lemma match_literal_canon (a : jsstring) :
  forall p p' w w',
    List.map canonicalize w = List.map canonicalize w' ->
    optWord p = optWord p' ->
    match match_literal a p w, match_literal a p' w' with
    | Some (l, rest), Some (l', rest') =>
        optWord l = optWord l'
        /\ List.map canonicalize rest = List.map canonicalize rest'
    | None, None => True
    | _, _ => False
    end.
Proof.
  induction a as [|pc a IH]; intros p p' w w' Hw Hp.
  - cbn [match_literal]. split; assumption.
  - destruct w as [|c w], w' as [|c' w']; try discriminate;
      cbn [match_literal]; [exact I|].
    simpl in Hw. injection Hw as Hc Hw. rewrite <- Hc.
    destruct (canonicalize pc =? canonicalize c); [|exact I].
    apply IH; [exact Hw|]. cbn [optWord]. apply canonicalize_word. exact Hc.
Qed.

Lemma match_alternatives_canon (alts : list jsstring) (p p' : option N)
  (w w' : jsstring) :
  List.map canonicalize w = List.map canonicalize w' ->
  optWord p = optWord p' ->
  match_alternatives alts p w = match_alternatives alts p' w'.
Proof.
  intros Hw Hp. induction alts as [|a alts IH]; [reflexivity|].
  cbn [match_alternatives].
  pose proof (match_literal_canon a p p' w w' Hw Hp) as H.
  destruct (match_literal a p w) as [[l rest]|],
           (match_literal a p' w') as [[l' rest']|];
    try contradiction; [|exact IH].
  destruct H as [Hl Hr]. unfold word_boundary.
  rewrite Hl, (hd_error_map_word _ _ Hr), IH. reflexivity.
Qed.

Lemma regexp_exec_canon (alts : list jsstring) (p p' : option N)
  (w w' : jsstring) :
  List.map canonicalize w = List.map canonicalize w' ->
  optWord p = optWord p' ->
  regexp_exec alts p w = regexp_exec alts p' w'.
Proof.
  intros Hw Hp. unfold regexp_exec, word_boundary.
  rewrite Hp, (hd_error_map_word _ _ Hw),
    (match_alternatives_canon alts p p' w w' Hw Hp).
  reflexivity.
Qed.

Lemma clean_canon (alts : list jsstring) (w : jsstring) :
  forall p p' w',
    List.map canonicalize w = List.map canonicalize w' ->
    optWord p = optWord p' ->
    clean alts p w = clean alts p' w'.
Proof.
  induction w as [|c w IH]; intros p p' [|c' w'] Hw Hp;
    try discriminate; [reflexivity|].
  cbn [clean]. rewrite (regexp_exec_canon alts p p' _ _ Hw Hp).
  simpl in Hw. injection Hw as Hc Hw.
  rewrite (IH (Some c) (Some c') w' Hw); [reflexivity|].
  cbn [optWord]. apply canonicalize_word. exact Hc.
Qed.

(** A rule whose pattern matches the whole of [a] turns every spelling of
    [a] into its replacement. *)
Lemma replace_hit (r : rule) (a w : jsstring) :
  List.map canonicalize w = List.map canonicalize a ->
  regexp_exec (pattern r) None a = Some (List.length a) ->
  replace r w = replacement r.
Proof.
  intros Hw Ha.
  rewrite <- (regexp_exec_canon (pattern r) None None w a Hw eq_refl) in Ha.
  assert (Hlen : List.length a = List.length w).
  { rewrite <- (length_map canonicalize a), <- Hw. apply length_map. }
  rewrite Hlen in Ha.
  destruct w as [|c m]; [discriminate|].
  unfold replace.
  replace (c :: m) with ((c :: m) ++ []) in Ha at 1 by apply app_nil_r.
  replace (c :: m) with ((c :: m) ++ []) at 1 by apply app_nil_r.
  rewrite (replace_from_match _ _ _ _ _ Ha). apply app_nil_r.
Qed.

(** A rule whose pattern matches nowhere in [a] leaves every spelling of
    [a] as it is. *)
Lemma replace_miss (r : rule) (a w : jsstring) :
  List.map canonicalize w = List.map canonicalize a ->
  clean (pattern r) None a = true ->
  replace r w = w.
Proof.
  intros Hw Ha. apply clean_replace_from.
  rewrite (clean_canon (pattern r) w None None a Hw eq_refl). exact Ha.
Qed.

Ltac soften_one_spelling H :=
  unfold soften, aggressivePatterns; cbn [fold_left];
  repeat (rewrite (replace_miss _ _ _ H) by (vm_compute; reflexivity));
  rewrite (replace_hit _ _ _ H) by (vm_compute; reflexivity);
  vm_compute; reflexivity.

Lemma soften_spelling (r : rule) (a w : jsstring) :
  In r aggressivePatterns -> In a (pattern r) ->
  List.map canonicalize w = List.map canonicalize a ->
  soften w = replacement r.
Proof.
  intros Hr Ha Hw. unfold aggressivePatterns in Hr. cbn [In] in Hr.
  repeat (destruct Hr as [<-|Hr]; [cbn [pattern In] in Ha;
    repeat (destruct Ha as [<-|Ha]; [soften_one_spelling Hw|]);
    contradiction|]).
  contradiction.
Qed.

(** ** Whole words *)

Lemma jsstring_eqb_eq (a b : jsstring) : jsstring_eqb a b = true <-> a = b.
Proof.
  revert b. induction a as [|x a IH]; intros [|y b]; simpl;
    try (split; [discriminate|discriminate]); [split; reflexivity|].
  rewrite andb_true_iff, N.eqb_eq, IH. split.
  - intros [-> ->]. reflexivity.
  - intros H. injection H as -> ->. split; reflexivity.
Qed.

Lemma word_clean (alts : list jsstring) (w : jsstring) :
  forallb alt_ok alts = true ->
  forall prev,
    forallb isWordChar w = true ->
    optWord prev = true \/ spells alts w = false ->
    clean alts prev w = true.
Proof.
  intros Hok. induction w as [|c w IH]; intros prev Hw H; [reflexivity|].
  cbn [clean].
  destruct (regexp_exec alts prev (c :: w)) as [n|] eqn:E.
  - exfalso.
    destruct (regexp_exec_inv _ _ _ _ Hok E)
      as (a & c0 & m & rest & Hin & Hs & _ & Hm & Hp & _ & _ & Hrest).
    destruct H as [H|H]; [rewrite H in Hp; discriminate|].
    destruct rest as [|d rest].
    + rewrite app_nil_r in Hs. rewrite <- Hs in Hm.
      assert (Ht : spells alts (c :: w) = true).
      { unfold spells. apply existsb_exists. exists a. split; [exact Hin|].
        apply jsstring_eqb_eq. symmetry. exact Hm. }
      rewrite Ht in H. discriminate.
    + rewrite Hs, forallb_app in Hw. apply andb_prop in Hw.
      destruct Hw as [_ Hw]. cbn [forallb] in Hw. apply andb_prop in Hw.
      destruct Hw as [Hd _]. cbn [hd_error optWord] in Hrest.
      rewrite Hd in Hrest. discriminate.
  - cbn [forallb] in Hw. apply andb_prop in Hw. destruct Hw as [Hc Hw].
    apply IH; [exact Hw|]. left. exact Hc.
Qed.

Lemma is_target_spells (w : jsstring) (r : rule) :
  is_target w = false -> In r aggressivePatterns ->
  spells (pattern r) w = false.
Proof.
  intros H Hr. unfold is_target in H.
  destruct (spells (pattern r) w) eqn:E; [|reflexivity].
  assert (Ht : existsb (fun r0 => spells (pattern r0) w) aggressivePatterns
               = true).
  { apply existsb_exists. exists r. split; assumption. }
  rewrite Ht in H. discriminate.
Qed.

Lemma soften_word_unchanged (w : jsstring) :
  forallb isWordChar w = true -> is_target w = false -> soften w = w.
Proof.
  intros Hw Ht. apply apply_rules_unchanged. intros r Hr.
  apply word_clean.
  - apply (pattern_ok r).
    apply (all_rule_ok _ aggressivePatterns_compatible r Hr).
  - exact Hw.
  - right. apply is_target_spells; assumption.
Qed.

(** C6. Substitution matching is whole-word.  Wherever a rule's pattern
    matches, the matched text [m] starts at the beginning of the input or
    after a non-word character, starts and ends with a word character, and
    is followed by the end of the input or a non-word character; a word (a
    string of word characters [A-Za-z0-9_]) that is not, as a whole and up
    to case, a target is left as it is.  Concretely, softening "The idea is
    not stupid" gives a string that contains "unclear", and softening
    "stupidity" gives "stupidity". *)
Theorem whole_word_matching :
  (forall r prev s n,
      In r aggressivePatterns ->
      regexp_exec (pattern r) prev s = Some n ->
      exists m rest,
        s = m ++ rest /\ List.length m = n /\ (1 <= n)%nat
        /\ optWord prev = false
        /\ optWord (hd_error m) = true
        /\ optWord (last_char None m) = true
        /\ optWord (hd_error rest) = false)
  /\ (forall w,
        forallb isWordChar w = true -> is_target w = false -> soften w = w)
  /\ includes (soften (js "The idea is not stupid")) (js "unclear") = true
  /\ soften (js "stupidity") = js "stupidity".
Proof.
  split; [|split; [|split]].
  - intros r prev s n Hr H.
    pose proof (pattern_ok r
      (all_rule_ok _ aggressivePatterns_compatible r Hr)) as Hok.
    destruct (regexp_exec_inv _ _ _ _ Hok H)
      as (a & c & m & rest & _ & Hs & Hn & _ & Hp & Hc & Hl & Hrest).
    exists (c :: m), rest. repeat split; try assumption.
    + rewrite <- Hn. simpl. lia.
    + rewrite last_char_last. exact Hl.
  - exact soften_word_unchanged.
  - vm_compute. reflexivity.
  - vm_compute. reflexivity.
Qed.

Lemma whole_word_matching_witness :
  forallb isWordChar (js "dumbest") = true
  /\ is_target (js "dumbest") = false
  /\ soften (js "dumbest") = js "dumbest".
Proof.
  split; [reflexivity|]. split; [reflexivity|].
  apply (proj1 (proj2 whole_word_matching) (js "dumbest"));
    vm_compute; reflexivity.
Defined.

(** The words of [\b] are runs of [A-Za-z0-9_]: a letter outside ASCII
    (here U+00E9) ends a word, and so does an apostrophe. *)
Example word_boundary_non_ascii :
  soften (js "stupid" ++ [233]) = js "unclear" ++ [233]
  /\ soften (js "stupid's") = js "unclear's".
Proof. split; vm_compute; reflexivity. Qed.

(** C9. A matched word is replaced by the rule's replacement string as it
    is written, whatever the casing of the matched word.  Every spelling [w]
    of an alternative of a rule softens to that rule's replacement; at any
    match the scan emits the replacement itself; "STUPID" and "Stupid" both
    soften to "unclear". *)
Theorem replacement_ignores_case :
  (forall r a w,
      In r aggressivePatterns -> In a (pattern r) ->
      List.map canonicalize w = List.map canonicalize a ->
      soften w = replacement r)
  /\ (forall r prev s n,
        In r aggressivePatterns ->
        regexp_exec (pattern r) prev s = Some n ->
        startsWith (replace_from r prev O s) (replacement r) = true)
  /\ soften (js "STUPID") = js "unclear"
  /\ soften (js "Stupid") = js "unclear".
Proof.
  split; [exact soften_spelling|]. split.
  - intros r prev s n Hr H. destruct s as [|c s].
    + pose proof (pattern_ok r
        (all_rule_ok _ aggressivePatterns_compatible r Hr)) as Hok.
      destruct (regexp_exec_inv _ _ _ _ Hok H)
        as (a & c & m & rest & _ & Hs & _). discriminate.
    + cbn [replace_from]. rewrite H.
      generalize (replace_from r (Some c) (Nat.pred n) s).
      induction (replacement r) as [|x t IH]; intros y; [reflexivity|].
      cbn [app startsWith]. rewrite N.eqb_refl. apply IH.
  - split; vm_compute; reflexivity.
Qed.

Lemma replacement_ignores_case_witness :
  soften (js "wOrThLeSs") = js "not quite working".
Proof.
  apply (proj1 replacement_ignores_case
           {| pattern := [js "useless"; js "worthless"];
              replacement := js "not quite working" |}
           (js "worthless") (js "wOrThLeSs")).
  - vm_compute. tauto.
  - vm_compute. tauto.
  - vm_compute. reflexivity.
Defined.

(** ** Whitespace normalization *)

Lemma collapse_from_collapsed (s : jsstring) :
  collapsed true (collapse_from true s) = true
  /\ collapsed false (collapse_from false s) = true.
Proof.
  induction s as [|c s [IH1 IH2]]; [split; reflexivity|].
  cbn [collapse_from]. destruct (isWhiteSpace c) eqn:E.
  - split; [exact IH1|]. cbn [collapsed]. rewrite IH1. reflexivity.
  - cbn [collapsed]. rewrite E. split; exact IH2.
Qed.

Lemma collapsed_weaken (b : bool) (s : jsstring) :
  collapsed b s = true -> collapsed false s = true.
Proof.
  destruct s as [|c s]; [reflexivity|]. cbn [collapsed].
  destruct (isWhiteSpace c); [|auto].
  intros H. apply andb_prop in H. destruct H as [H1 H2].
  apply andb_prop in H1. destruct H1 as [H1 _]. rewrite H1, H2. reflexivity.
Qed.

Lemma trimStart_collapsed (s : jsstring) :
  forall b, collapsed b s = true -> collapsed false (trimStart s) = true.
Proof.
  induction s as [|c s IH]; intros b H; [reflexivity|].
  cbn [trimStart]. destruct (isWhiteSpace c) eqn:E.
  - cbn [collapsed] in H. rewrite E in H. apply andb_prop in H.
    destruct H as [_ H]. apply (IH true). exact H.
  - apply (collapsed_weaken b). exact H.
Qed.

Lemma collapsed_prefix (p q : jsstring) :
  forall b, collapsed b (p ++ q) = true -> collapsed b p = true.
Proof.
  induction p as [|c p IH]; intros b H; [reflexivity|].
  cbn [app collapsed] in H |- *. destruct (isWhiteSpace c).
  - apply andb_prop in H. destruct H as [H1 H2]. rewrite H1.
    apply (IH true). exact H2.
  - apply (IH false). exact H.
Qed.

Lemma trimStart_suffix (l : jsstring) : exists x, l = x ++ trimStart l.
Proof.
  induction l as [|c l [x IH]]; [exists []; reflexivity|].
  cbn [trimStart]. destruct (isWhiteSpace c).
  - exists (c :: x). cbn [app]. rewrite <- IH. reflexivity.
  - exists []. reflexivity.
Qed.

Lemma trimEnd_prefix (s : jsstring) : exists x, s = trimEnd s ++ x.
Proof.
  destruct (trimStart_suffix (rev s)) as [x Hx].
  exists (rev x). unfold trimEnd. rewrite <- rev_app_distr, <- Hx.
  symmetry. apply rev_involutive.
Qed.

Lemma trimStart_head (l : jsstring) : optSpace (hd_error (trimStart l)) = false.
Proof.
  induction l as [|c l IH]; [reflexivity|].
  cbn [trimStart]. destruct (isWhiteSpace c) eqn:E; [exact IH|].
  cbn [hd_error optSpace]. exact E.
Qed.

Lemma trim_collapsed (s : jsstring) :
  collapsed false s = true -> collapsed false (trim s) = true.
Proof.
  intros H. unfold trim.
  destruct (trimEnd_prefix (trimStart s)) as [x Hx].
  pose proof (trimStart_collapsed s false H) as H'.
  rewrite Hx in H'. apply (collapsed_prefix _ x). exact H'.
Qed.

Lemma trim_trimmed (s : jsstring) : trimmed (trim s) = true.
Proof.
  unfold trimmed, trim. apply andb_true_intro. split.
  - destruct (trimEnd_prefix (trimStart s)) as [x Hx].
    pose proof (trimStart_head s) as Hh. rewrite Hx in Hh.
    destruct (trimEnd (trimStart s)) as [|c t]; [reflexivity|].
    cbn [app hd_error] in Hh. cbn [hd_error]. rewrite Hh. reflexivity.
  - unfold trimEnd. rewrite rev_involutive, trimStart_head. reflexivity.
Qed.

Lemma normalize_normalized (s : jsstring) : normalized (normalize s) = true.
Proof.
  unfold normalized, normalize. apply andb_true_intro. split.
  - apply trim_collapsed. apply (collapse_from_collapsed s).
  - apply trim_trimmed.
Qed.

(** ** The tone templates *)

Lemma rewrite_valid (rt : runtime) (text tone : jsstring) :
  text <> [] -> In tone tones ->
  rewrite rt (rewrite_request text tone)
  = rewritten_response (applyRewriteRules (toUpperCase rt) text tone) tone.
Proof.
  intros Ht Hin. unfold rewrite, rewrite_try, rewrite_request.
  cbn [body_text body_tone string_of typeof_string].
  destruct text as [|c text]; [contradiction|].
  cbn [truthy negb orb].
  unfold tones in Hin. cbn [In] in Hin.
  destruct Hin as [<-|[<-|[<-|[<-|[]]]]]; reflexivity.
Qed.

(** C4. For every valid rewrite request (a non-empty text and one of the
    four tones) the answer is the tone's fixed prefix, then the core, then
    the tone's fixed suffix.  The core comes from the softened text after
    whitespace collapse and trim: with its first character upper-cased for
    [professional], [calm] and [friendly]; for [short], whose prefix is
    "Quick note: " and whose suffix is " Let's discuss.", the trimmed first
    sentence as it is, without capitalization. *)
Theorem rewrite_framing :
  forall (rt : runtime) (text tone : jsstring),
    text <> [] -> In tone tones ->
    let core := normalize (soften text) in
    normalized core = true
    /\ rewrite rt (rewrite_request text tone)
       = rewritten_response
           (tone_prefix tone
            ++ (if jsstring_eqb tone (js "short")
                then trim (first_sentence core)
                else match core with
                     | [] => []
                     | c :: rest => toUpperCase rt c ++ rest
                     end)
            ++ tone_suffix tone) tone.
Proof.
  intros rt text tone Ht Hin core. split.
  - apply normalize_normalized.
  - rewrite (rewrite_valid rt text tone Ht Hin). f_equal.
    unfold tones in Hin. cbn [In] in Hin.
    destruct Hin as [<-|[<-|[<-|[<-|[]]]]]; reflexivity.
Qed.

Lemma rewrite_framing_witness :
  rewrite ascii_runtime
    (rewrite_request (js "you   always fail to listen and it's terrible")
       (js "professional"))
  = rewritten_response
      (js "I wanted to share some feedback regarding this matter. You sometimes didn't work out to listen and it's not ideal I believe addressing this could lead to better outcomes. Please let me know your thoughts.")
      (js "professional").
Proof.
  refine (eq_trans
    (proj2 (rewrite_framing ascii_runtime
              (js "you   always fail to listen and it's terrible")
              (js "professional") _ _)) _).
  - discriminate.
  - vm_compute. tauto.
  - vm_compute. reflexivity.
Defined.

Lemma no_terminator_no_sentence (t : jsstring) :
  existsb isTerminator t = false -> span_sentence t = (t, []).
Proof.
  induction t as [|c t IH]; [reflexivity|].
  cbn [existsb span_sentence]. intros H. apply orb_false_elim in H.
  destruct H as [Hc Ht]. rewrite Hc, (IH Ht). reflexivity.
Qed.

(** C5. [rewrite("This is useless and a waste of time", "short")] is
    "Quick note: This is not quite working and a could be optimized Let's
    discuss."; and for tone [short], when the softened, whitespace-normalized
    text has no [.], [!] or [?], the extracted core ([firstSentence]) is its
    first 100 characters, which the answer frames after a trim. *)
Theorem short_tone_core :
  (forall rt : runtime,
      rewrite rt (rewrite_request (js "This is useless and a waste of time")
                    (js "short"))
      = rewritten_response
          (js "Quick note: This is not quite working and a could be optimized Let's discuss.")
          (js "short"))
  /\ (forall (rt : runtime) (text : jsstring),
        let t := normalize (soften text) in
        existsb isTerminator t = false ->
        first_sentence t = firstn 100 t
        /\ applyRewriteRules (toUpperCase rt) text (js "short")
           = js "Quick note: " ++ trim (firstn 100 t) ++ js " Let's discuss.").
Proof.
  split.
  - intros rt. vm_compute. reflexivity.
  - intros rt text t H.
    assert (E : first_sentence t = firstn 100 t).
    { unfold first_sentence, match_first_sentence.
      rewrite (no_terminator_no_sentence t H).
      destruct t; reflexivity. }
    split; [exact E|].
    change (applyRewriteRules (toUpperCase rt) text (js "short"))
      with (js "Quick note: " ++ trim (first_sentence t)
            ++ js " Let's discuss.").
    rewrite E. reflexivity.
Qed.

Lemma short_tone_core_witness :
  applyRewriteRules (toUpperCase ascii_runtime)
    (js "it is  useless") (js "short")
  = js "Quick note: it is not quite working Let's discuss.".
Proof.
  refine (eq_trans
    (proj2 (proj2 short_tone_core ascii_runtime (js "it is  useless") _)) _).
  - vm_compute. reflexivity.
  - vm_compute. reflexivity.
Defined.

Example short_tone_long_text :
  let text := List.concat (repeat (js "aaaa ") 24) ++ js "end" in
  List.length text = 123%nat
  /\ applyRewriteRules (toUpperCase ascii_runtime) text (js "short")
     = js "Quick note: " ++ firstn 99 text ++ js " Let's discuss.".
Proof. split; vm_compute; reflexivity. Qed.

(** ** Validation of the rewrite endpoint *)

(** C2, on the code.  The rewrite handler rejects the empty text with status
    400, but it has no check of the trimmed text: a text of whitespace alone
    with a valid tone is answered with status 200 and the bare template.
    The moderate handler rejects the same text with status 400. *)
Theorem rewrite_blank_text :
  (forall (rt : runtime) (tone : jsstring),
      rewrite rt (rewrite_request [] tone)
      = json_error 400
          "Invalid input: text field is required and must be a string")
  /\ (forall rt : runtime,
        trim (js "   ") = []
        /\ rewrite rt (rewrite_request (js "   ") (js "calm"))
           = rewritten_response
               (js "I understand there may be different perspectives here.  I'd appreciate the opportunity to discuss this further when you have time.")
               (js "calm"))
  /\ (forall (rt : runtime) (w : world),
        moderate rt w (rewrite_request (js "   ") (js "calm"))
        = json_error 400 "Invalid input: text cannot be empty").
Proof.
  split; [|split].
  - intros rt tone. reflexivity.
  - intros rt. split; vm_compute; reflexivity.
  - intros rt w. vm_compute. reflexivity.
Qed.

(** ** The moderation proxy *)

Lemma moderate_answered (rt : runtime) (w : world) (req : request_body)
  (data : js_value) :
  service_answers w req data ->
  moderate rt w req
  = match moderate_score rt data with
    | inr res => res
    | inl error => moderate_catch error
    end.
Proof.
  intros (s & token & res & Ht & Htrim & Hlen & Htok & Hne & Hc & Hp & Hd).
  assert (Htr : truthy (JString s) = true).
  { destruct s; [contradiction Htrim; reflexivity|reflexivity]. }
  assert (He : (List.length (trim s) =? 0)%nat = false).
  { destruct (trim s); [contradiction Htrim; reflexivity|reflexivity]. }
  assert (Hl : (5000 <? List.length s)%nat = false)
    by (apply Nat.ltb_ge; exact Hlen).
  unfold moderate, moderate_try. rewrite Ht.
  cbn [string_of typeof_string]. rewrite Htr, He, Hl, Htok.
  cbn [negb orb].
  destruct token as [|k token]; [contradiction Hne; reflexivity|].
  rewrite Hc, Hp. cbn [bind]. rewrite Hd. reflexivity.
Qed.

Lemma scoring_world_answers (payload : js_value) :
  service_answers (scoring_world payload) (moderate_request (js "you fool"))
    (JArray [JNull; payload]).
Proof.
  exists (js "you fool"), (js "hf_secret"),
    (JObject [(js "data", JArray [JNull; payload])]).
  repeat split; try reflexivity; try discriminate.
  vm_compute. lia.
Qed.

(** C1, on the code.  When the parsed payload is an object without a
    [max_value] field the handler does not fail: it answers with status 200,
    [scorePct] NaN and [score01] undefined.  More generally, whenever the
    payload parses to a value other than [null] and [undefined], whatever
    its [max_value], the answer has status 200. *)
Theorem moderate_missing_max_value :
  (forall rt w req data fields,
      service_answers w req data ->
      truthy (optional_index_1 data) = true ->
      JSON_parse rt (optional_index_1 data) = inr (JObject fields) ->
      lookup (js "max_value") fields = JUndefined ->
      moderate rt w req = score_response NaN JUndefined data)
  /\ (forall rt w req data v score,
        service_answers w req data ->
        truthy (optional_index_1 data) = true ->
        JSON_parse rt (optional_index_1 data) = inr v ->
        get_property v (js "max_value") = inr score ->
        status (moderate rt w req) = 200%nat).
Proof.
  split.
  - intros rt w req data fields Ha Ht Hp Hl.
    rewrite (moderate_answered rt w req data Ha).
    unfold moderate_score. rewrite Ht, Hp. cbn [negb bind get_property].
    rewrite Hl. reflexivity.
  - intros rt w req data v score Ha Ht Hp Hg.
    rewrite (moderate_answered rt w req data Ha).
    unfold moderate_score. rewrite Ht, Hp. cbn [negb bind].
    rewrite Hg. reflexivity.
Qed.

Lemma moderate_missing_max_value_witness :
  moderate
    (parsing_runtime
       (inr (JObject [(js "label", JNumber (number_of_Z 1))])))
    (scoring_world payload_without_score)
    (moderate_request (js "you fool"))
  = score_response NaN JUndefined (JArray [JNull; payload_without_score]).
Proof.
  apply (proj1 moderate_missing_max_value
           (parsing_runtime
              (inr (JObject [(js "label", JNumber (number_of_Z 1))])))
           (scoring_world payload_without_score)
           (moderate_request (js "you fool"))
           (JArray [JNull; payload_without_score])
           [(js "label", JNumber (number_of_Z 1))]).
  - apply scoring_world_answers.
  - reflexivity.
  - reflexivity.
  - vm_compute. reflexivity.
Defined.

Lemma Math_round_half_up (s : bool) (m : positive) (e : Z) :
  (e < 0)%Z ->
  exists r : Z,
    Math_round (S754_finite s m e)
    = (if (r =? 0)%Z then S754_zero s else number_of_Z r)
    /\ ((2 * r - 1) * 2 ^ (- e) <= 2 * cond_Zopp s (Zpos m)
        < (2 * r + 1) * 2 ^ (- e))%Z.
Proof.
  intros He. unfold Math_round.
  assert (Hle : (0 <=? e)%Z = false) by (apply Z.leb_gt; exact He).
  rewrite Hle.
  set (v := cond_Zopp s (Zpos m)).
  exists ((2 * v + 2 ^ (- e)) / 2 ^ (1 - e))%Z. split; [reflexivity|].
  assert (Hp : (0 < 2 ^ (- e))%Z) by (apply Z.pow_pos_nonneg; lia).
  assert (Hd : (2 ^ (1 - e) = 2 * 2 ^ (- e))%Z).
  { replace (1 - e)%Z with (Z.succ (- e)) by lia.
    apply Z.pow_succ_r. lia. }
  rewrite Hd. set (P := (2 ^ (- e))%Z) in *.
  pose proof (Z.div_mod (2 * v + P) (2 * P) ltac:(lia)) as Hdm.
  pose proof (Z.mod_pos_bound (2 * v + P) (2 * P) ltac:(lia)) as Hb.
  set (q := ((2 * v + P) / (2 * P))%Z) in *.
  set (t := ((2 * v + P) mod (2 * P))%Z) in *.
  nia.
Qed.

(** The literal 0.754 denotes the binary64 value nearest to 754/1000. *)
Lemma decimal_0754 :
  decimal 754 3 = S754_finite false 6791428238074708 (-53)
  /\ (Z.abs (1000 * 6791428238074708 - 754 * 2 ^ 53) <= 500)%Z.
Proof. split; [vm_compute; reflexivity|vm_compute; discriminate]. Qed.

(** C7. Score normalization is one fixed rounding: [scorePct] is
    [Math.round] of the binary64 product of the upstream [max_value] and
    100, the nearest integer with a tie going up; for an upstream score of
    0.754 the returned [scorePct] is 75. *)
Theorem score_normalization :
  (forall rt w req data fields x,
      service_answers w req data ->
      truthy (optional_index_1 data) = true ->
      JSON_parse rt (optional_index_1 data) = inr (JObject fields) ->
      lookup (js "max_value") fields = JNumber x ->
      moderate rt w req
      = score_response (Math_round (number_mul x (number_of_Z 100)))
          (JNumber x) data)
  /\ (forall (s : bool) (m : positive) (e : Z),
        (e < 0)%Z ->
        exists r : Z,
          Math_round (S754_finite s m e)
          = (if (r =? 0)%Z then S754_zero s else number_of_Z r)
          /\ ((2 * r - 1) * 2 ^ (- e) <= 2 * cond_Zopp s (Zpos m)
              < (2 * r + 1) * 2 ^ (- e))%Z)
  /\ Math_round (number_mul (decimal 754 3) (number_of_Z 100))
     = number_of_Z 75.
Proof.
  split; [|split].
  - intros rt w req data fields x Ha Ht Hp Hl.
    rewrite (moderate_answered rt w req data Ha).
    unfold moderate_score. rewrite Ht, Hp. cbn [negb bind get_property].
    rewrite Hl. reflexivity.
  - exact Math_round_half_up.
  - vm_compute. reflexivity.
Qed.

Lemma score_normalization_witness :
  moderate
    (parsing_runtime
       (inr (JObject [(js "max_value", JNumber (decimal 754 3))])))
    (scoring_world payload_0754)
    (moderate_request (js "you fool"))
  = score_response (number_of_Z 75) (JNumber (decimal 754 3))
      (JArray [JNull; payload_0754]).
Proof.
  refine (eq_trans
    (proj1 score_normalization
       (parsing_runtime
          (inr (JObject [(js "max_value", JNumber (decimal 754 3))])))
       (scoring_world payload_0754)
       (moderate_request (js "you fool"))
       (JArray [JNull; payload_0754])
       [(js "max_value", JNumber (decimal 754 3))]
       (decimal 754 3) _ _ _ _) _).
  - apply scoring_world_answers.
  - reflexivity.
  - reflexivity.
  - vm_compute. reflexivity.
  - vm_compute. reflexivity.
Defined.

(** C10. In the moderate operation the classification of an error is a
    substring test on its message.  Whatever the [try] block throws goes to
    the [catch] block; there a message that contains "connect" gives
    status 503 and any other error gives the generic status 500.  The
    missing-payload error is so answered with 500, and an error that is not
    a network error (here one thrown by [JSON.parse]) whose message mentions
    "connect" is answered with 503. *)
Theorem moderate_error_classification :
  (forall rt w req e,
      moderate_try rt w req = inl e -> moderate rt w req = moderate_catch e)
  /\ (forall msg,
        includes msg (js "connect") = true ->
        moderate_catch (Error msg)
        = json_error 503
            "Unable to connect to moderation service. Please try again.")
  /\ (forall e,
        (forall msg, message e = Some msg ->
                     includes msg (js "connect") = false) ->
        moderate_catch e
        = json_error 500 "Failed to analyze message. Please try again.")
  /\ (forall rt w req data,
        service_answers w req data ->
        truthy (optional_index_1 data) = false ->
        moderate rt w req
        = json_error 500 "Failed to analyze message. Please try again.")
  /\ (forall rt w req data msg,
        service_answers w req data ->
        truthy (optional_index_1 data) = true ->
        JSON_parse rt (optional_index_1 data) = inl (Error msg) ->
        includes msg (js "connect") = true ->
        moderate rt w req
        = json_error 503
            "Unable to connect to moderation service. Please try again.").
Proof.
  split; [|split; [|split; [|split]]].
  - intros rt w req e H. unfold moderate. rewrite H. reflexivity.
  - intros msg H. unfold moderate_catch, Error. cbn [message].
    rewrite H. reflexivity.
  - intros e H. unfold moderate_catch.
    destruct (message e) as [msg|]; [|reflexivity].
    rewrite (H msg eq_refl). reflexivity.
  - intros rt w req data Ha Ht.
    rewrite (moderate_answered rt w req data Ha).
    unfold moderate_score. rewrite Ht. reflexivity.
  - intros rt w req data msg Ha Ht Hp Hi.
    rewrite (moderate_answered rt w req data Ha).
    unfold moderate_score. rewrite Ht, Hp. cbn [negb bind].
    unfold moderate_catch, Error. cbn [message]. rewrite Hi. reflexivity.
Qed.

Lemma moderate_error_classification_witness :
  moderate
    (parsing_runtime
       (inl (Error (js "Unexpected token 'c', connect is not valid JSON"))))
    (scoring_world (JString (js "connect")))
    (moderate_request (js "you fool"))
  = json_error 503
      "Unable to connect to moderation service. Please try again.".
Proof.
  apply (proj2 (proj2 (proj2 (proj2 moderate_error_classification)))
           (parsing_runtime
              (inl (Error
                 (js "Unexpected token 'c', connect is not valid JSON"))))
           (scoring_world (JString (js "connect")))
           (moderate_request (js "you fool"))
           (JArray [JNull; JString (js "connect")])
           (js "Unexpected token 'c', connect is not valid JSON")).
  - apply scoring_world_answers.
  - reflexivity.
  - reflexivity.
  - vm_compute. reflexivity.
Defined.


(** * Further properties of the code *)

(** ** The softened text *)

Lemma regexp_exec_nil (alts : list jsstring) (prev : option N) :
  forallb alt_ok alts = true -> regexp_exec alts prev [] = None.
Proof.
  intros Hok. destruct (regexp_exec alts prev []) as [n|] eqn:E;
    [|reflexivity].
  destruct (regexp_exec_inv _ _ _ _ Hok E) as (a & c & m & rest & _ & Hs & _).
  discriminate.
Qed.

Lemma clean_split (alts : list jsstring) (pre post : jsstring)
  (prev : option N) :
  forallb alt_ok alts = true ->
  clean alts prev (pre ++ post) = true ->
  regexp_exec alts (last_char prev pre) post = None.
Proof.
  intros Hok H. apply clean_skip in H.
  destruct post as [|c post]; [apply regexp_exec_nil; exact Hok|].
  cbn [clean] in H.
  destruct (regexp_exec alts (last_char prev pre) (c :: post));
    [discriminate|reflexivity].
Qed.

(** X1. After the softening phase no rule's pattern matches anywhere in the
    text: at every position of [soften t] ([pre] before it, [post] from it
    on) every pattern of [aggressivePatterns] fails. *)
Theorem soften_leaves_no_match :
  forall (t : jsstring) (r : rule) (pre post : jsstring),
    In r aggressivePatterns ->
    soften t = pre ++ post ->
    regexp_exec (pattern r) (last_char None pre) post = None.
Proof.
  intros t r pre post Hr Hs. apply clean_split.
  - apply (pattern_ok r).
    apply (all_rule_ok _ aggressivePatterns_compatible r Hr).
  - rewrite <- Hs. apply soften_clean. exact Hr.
Qed.

Lemma soften_leaves_no_match_witness :
  regexp_exec [js "hate"; js "despise"; js "loathe"]
    (last_char None (js "I ")) (js "don't prefer it, sometimes") = None.
Proof.
  apply (soften_leaves_no_match (js "I HATE it, always")
           {| pattern := [js "hate"; js "despise"; js "loathe"];
              replacement := js "don't prefer" |}
           (js "I ") (js "don't prefer it, sometimes")).
  - vm_compute. tauto.
  - vm_compute. reflexivity.
Defined.

Lemma replace_from_canon (r : rule) (s : jsstring) :
  forall s' p p' k,
    List.map canonicalize s = List.map canonicalize s' ->
    optWord p = optWord p' ->
    List.map canonicalize (replace_from r p k s)
    = List.map canonicalize (replace_from r p' k s').
Proof.
  induction s as [|c s IH]; intros [|c' s'] p p' k Hs Hp;
    try discriminate; [reflexivity|].
  pose proof (regexp_exec_canon (pattern r) p p' _ _ Hs Hp) as He.
  simpl in Hs. injection Hs as Hc Hs.
  assert (Hw : optWord (Some c) = optWord (Some c'))
    by (cbn [optWord]; apply canonicalize_word; exact Hc).
  cbn [replace_from]. destruct k as [|k].
  - rewrite He.
    destruct (regexp_exec (pattern r) p' (c' :: s')) as [n|].
    + rewrite !map_app. f_equal. apply IH; assumption.
    + cbn [List.map]. rewrite Hc. f_equal. apply IH; assumption.
  - apply IH; assumption.
Qed.

(** X2. Softening looks at letters up to case only: two texts that differ
    only in the case of ASCII letters have softened texts that differ only
    in the case of ASCII letters. *)
Theorem soften_case_equivariant :
  forall w w' : jsstring,
    List.map canonicalize w = List.map canonicalize w' ->
    List.map canonicalize (soften w) = List.map canonicalize (soften w').
Proof.
  unfold soften. generalize aggressivePatterns as rs.
  induction rs as [|r rs IH]; intros w w' H; [exact H|].
  cbn [fold_left]. apply IH. unfold replace.
  apply replace_from_canon; [exact H|reflexivity].
Qed.

Lemma soften_case_equivariant_witness :
  List.map canonicalize (soften (js "You ALWAYS Fail"))
  = List.map canonicalize (soften (js "you always fail")).
Proof.
  apply (soften_case_equivariant (js "You ALWAYS Fail")
           (js "you always fail")).
  vm_compute. reflexivity.
Defined.

Lemma separator_not_word (c : N) : separator c = true -> isWordChar c = false.
Proof.
  unfold separator. intros H. apply andb_prop in H. destruct H as [H _].
  destruct (isWordChar c); [discriminate|reflexivity].
Qed.

Lemma separator_clash (pc c : N) :
  isWordChar pc || (pc =? 32) = true ->
  separator c = true ->
  (canonicalize pc =? canonicalize c) = false.
Proof.
  intros Hpc Hc. apply N.eqb_neq. intros E.
  pose proof (separator_not_word c Hc) as Hw.
  rewrite <- (canonicalize_word _ _ E) in Hw. rewrite Hw in Hpc.
  cbn [orb] in Hpc. apply N.eqb_eq in Hpc. subst pc.
  unfold separator in Hc. apply andb_prop in Hc. destruct Hc as [Hc1 Hc2].
  unfold canonicalize in E at 2.
  destruct ((97 <=? c) && (c <=? 122)) eqn:L.
  - unfold isWordChar in Hc1. rewrite L, orb_true_r in Hc1. discriminate.
  - change (canonicalize 32) with 32 in E. subst c. discriminate.
Qed.

Lemma match_literal_separator (c : N) (s2 : jsstring) (a : jsstring) :
  spaced_words a = true -> separator c = true ->
  forall prev s1,
    match_literal a prev (s1 ++ c :: s2)
    = match match_literal a prev s1 with
      | Some (l, rest) => Some (l, rest ++ c :: s2)
      | None => None
      end.
Proof.
  intros Ha Hc. induction a as [|pc a IH]; intros prev s1; [reflexivity|].
  cbn [spaced_words forallb] in Ha. apply andb_prop in Ha.
  destruct Ha as [Hpc Ha].
  destruct s1 as [|x s1]; cbn [app match_literal].
  - rewrite (separator_clash pc c Hpc Hc). reflexivity.
  - destruct (canonicalize pc =? canonicalize x); [|reflexivity].
    apply IH. exact Ha.
Qed.

Lemma hd_error_separator (c : N) (s2 rest : jsstring) :
  separator c = true ->
  optWord (hd_error (rest ++ c :: s2)) = optWord (hd_error rest).
Proof.
  intros Hc. destruct rest as [|x rest]; [|reflexivity].
  cbn [app hd_error optWord]. apply separator_not_word. exact Hc.
Qed.

Lemma regexp_exec_separator (alts : list jsstring) (c : N)
  (s1 s2 : jsstring) (prev : option N) :
  forallb spaced_words alts = true -> separator c = true ->
  regexp_exec alts prev (s1 ++ c :: s2) = regexp_exec alts prev s1.
Proof.
  intros Ha Hc. unfold regexp_exec, word_boundary.
  rewrite (hd_error_separator c s2 s1 Hc).
  destruct (xorb (optWord prev) (optWord (hd_error s1))); [|reflexivity].
  induction alts as [|a alts IH]; [reflexivity|].
  cbn [forallb] in Ha. apply andb_prop in Ha. destruct Ha as [Ha1 Ha2].
  cbn [match_alternatives].
  rewrite (match_literal_separator c s2 a Ha1 Hc prev s1).
  destruct (match_literal a prev s1) as [[l rest]|]; [|apply IH; exact Ha2].
  unfold word_boundary. rewrite (hd_error_separator c s2 rest Hc).
  rewrite (IH Ha2). reflexivity.
Qed.

Lemma replace_from_prev (r : rule) (p q : option N) (s : jsstring) :
  optWord p = optWord q -> replace_from r p O s = replace_from r q O s.
Proof.
  intros H. destruct s as [|c s]; [reflexivity|].
  cbn [replace_from]. rewrite (regexp_exec_prev _ p q _ H). reflexivity.
Qed.

Lemma replace_from_separator (r : rule) (c : N) (s2 : jsstring) :
  rule_ok r = true -> forallb spaced_words (pattern r) = true ->
  separator c = true ->
  forall s1 prev k,
    (k <= List.length s1)%nat ->
    replace_from r prev k (s1 ++ c :: s2)
    = replace_from r prev k s1 ++ c :: replace r s2.
Proof.
  intros Hok Ha Hc. pose proof (pattern_ok r Hok) as Hp.
  induction s1 as [|x s1 IH]; intros prev k Hk.
  - destruct k; [|simpl in Hk; lia].
    pose proof (regexp_exec_separator (pattern r) c [] s2 prev Ha Hc) as E.
    rewrite (regexp_exec_nil _ prev Hp) in E. cbn [app] in E |- *.
    rewrite (replace_from_nomatch _ _ _ _ E). cbn [replace_from app].
    unfold replace. f_equal. apply replace_from_prev.
    cbn [optWord]. apply separator_not_word. exact Hc.
  - cbn [app replace_from]. destruct k as [|k].
    + pose proof (regexp_exec_separator (pattern r) c (x :: s1) s2 prev Ha Hc)
        as E.
      cbn [app] in E. rewrite E.
      destruct (regexp_exec (pattern r) prev (x :: s1)) as [n|] eqn:En.
      * destruct (regexp_exec_inv _ _ _ _ Hp En)
          as (a & c0 & m & rest & _ & Hs & Hn & _).
        rewrite <- app_assoc. f_equal. apply IH.
        assert (Hl : List.length (x :: s1) = List.length ((c0 :: m) ++ rest))
          by (rewrite Hs; reflexivity).
        rewrite length_app, Hn in Hl. simpl in Hl. lia.
      * cbn [app]. f_equal. apply IH. lia.
    + apply IH. simpl in Hk. lia.
Qed.

Lemma aggressivePatterns_spaced :
  forallb (fun r => forallb spaced_words (pattern r)) aggressivePatterns
  = true.
Proof. vm_compute. reflexivity. Qed.

(** X3. Softening works piece by piece: a character that is neither a word
    character nor a space (a comma, a full stop, a line break, a letter
    outside ASCII) splits the text into two parts that are softened
    independently of each other. *)
Theorem soften_separator :
  forall (s1 s2 : jsstring) (c : N),
    separator c = true ->
    soften (s1 ++ c :: s2) = soften s1 ++ c :: soften s2.
Proof.
  intros s1 s2 c Hc. unfold soften.
  pose proof aggressivePatterns_spaced as Hsp.
  assert (Hok : forallb rule_ok aggressivePatterns = true).
  { pose proof aggressivePatterns_compatible as H.
    apply andb_prop in H. apply H. }
  revert s1 s2 Hsp Hok. generalize aggressivePatterns as rs.
  induction rs as [|r rs IH]; intros s1 s2 Hsp Hok; [reflexivity|].
  cbn [forallb] in Hsp, Hok. apply andb_prop in Hsp. apply andb_prop in Hok.
  destruct Hsp as [Hsp1 Hsp2]. destruct Hok as [Hok1 Hok2].
  cbn [fold_left].
  assert (E : replace r (s1 ++ c :: s2) = replace r s1 ++ c :: replace r s2).
  { unfold replace at 1 2.
    apply (replace_from_separator r c s2 Hok1 Hsp1 Hc s1 None O).
    apply Nat.le_0_l. }
  rewrite E. apply IH; assumption.
Qed.

Lemma soften_separator_witness :
  soften (js "I hate it" ++ 44 :: js " it never works")
  = soften (js "I hate it") ++ 44 :: soften (js " it never works").
Proof.
  apply (soften_separator (js "I hate it") (js " it never works") 44).
  vm_compute. reflexivity.
Defined.

(** ** Whitespace and sentences *)

Lemma collapsed_collapse_from (s : jsstring) :
  forall b, collapsed b s = true -> collapse_from b s = s.
Proof.
  induction s as [|c s IH]; intros b H; [reflexivity|].
  cbn [collapsed] in H. cbn [collapse_from].
  destruct (isWhiteSpace c).
  - apply andb_prop in H. destruct H as [H1 H2].
    apply andb_prop in H1. destruct H1 as [Hc Hb].
    apply N.eqb_eq in Hc. subst c.
    destruct b; [discriminate|]. rewrite (IH true H2). reflexivity.
  - rewrite (IH false H). reflexivity.
Qed.

Lemma trimStart_fixed (s : jsstring) :
  optSpace (hd_error s) = false -> trimStart s = s.
Proof.
  destruct s as [|c s]; [reflexivity|]. cbn [hd_error optSpace trimStart].
  intros H. rewrite H. reflexivity.
Qed.

Lemma trimmed_trim (s : jsstring) : trimmed s = true -> trim s = s.
Proof.
  unfold trimmed. intros H. apply andb_prop in H. destruct H as [H1 H2].
  apply negb_true_iff in H1. apply negb_true_iff in H2.
  unfold trim, trimEnd. rewrite (trimStart_fixed s H1).
  rewrite (trimStart_fixed (rev s) H2). apply rev_involutive.
Qed.

(** X4. Whitespace normalization (collapse, then trim) leaves a normalized
    string as it is, so doing it twice is the same as doing it once. *)
Theorem normalize_idempotent :
  (forall s : jsstring, normalized s = true -> normalize s = s)
  /\ (forall s : jsstring, normalize (normalize s) = normalize s).
Proof.
  assert (H : forall s, normalized s = true -> normalize s = s).
  { intros s Hn. unfold normalized in Hn. apply andb_prop in Hn.
    destruct Hn as [Hc Ht]. unfold normalize, collapse_whitespace.
    rewrite (collapsed_collapse_from s false Hc). apply trimmed_trim.
    exact Ht. }
  split; [exact H|]. intros s. apply H. apply normalize_normalized.
Qed.

Lemma normalize_idempotent_witness :
  normalize (js "not ideal at all") = js "not ideal at all".
Proof.
  apply (proj1 normalize_idempotent (js "not ideal at all")).
  vm_compute. reflexivity.
Defined.

Lemma span_sentence_app (body : jsstring) (t : N) (rest : jsstring) :
  existsb isTerminator body = false -> isTerminator t = true ->
  span_sentence (body ++ t :: rest) = (body, t :: rest).
Proof.
  intros Hb Ht. induction body as [|c body IH].
  - cbn [app span_sentence]. rewrite Ht. reflexivity.
  - cbn [existsb] in Hb. apply orb_false_elim in Hb. destruct Hb as [Hc Hb].
    cbn [app span_sentence]. rewrite Hc, (IH Hb). reflexivity.
Qed.

(** X5. The first sentence of the short tone.  A text that starts with a
    non-empty run free of [.], [!] and [?] followed by one of them gives
    that run with its terminator, however long it is; a text that starts
    with a terminator has no first sentence and gives its first 100
    characters, later terminators included. *)
Theorem first_sentence_cases :
  (forall (body : jsstring) (t : N) (rest : jsstring),
      body <> [] -> existsb isTerminator body = false ->
      isTerminator t = true ->
      first_sentence (body ++ t :: rest) = body ++ [t])
  /\ (forall (t : N) (rest : jsstring),
        isTerminator t = true ->
        first_sentence (t :: rest) = firstn 100 (t :: rest)).
Proof.
  split.
  - intros body t rest Hne Hb Ht. unfold first_sentence, match_first_sentence.
    rewrite (span_sentence_app body t rest Hb Ht).
    destruct body; [contradiction|reflexivity].
  - intros t rest Ht. unfold first_sentence, match_first_sentence.
    cbn [span_sentence]. rewrite Ht. reflexivity.
Qed.

Lemma first_sentence_cases_witness :
  first_sentence (js "Stop" ++ 33 :: js " Now.") = js "Stop" ++ [33].
Proof.
  apply (proj1 first_sentence_cases (js "Stop") 33 (js " Now.")).
  - discriminate.
  - reflexivity.
  - reflexivity.
Defined.

(** ** The rewrite endpoint *)

Lemma whitespace_not_word (c : N) :
  isWhiteSpace c = true -> isWordChar c = false.
Proof.
  intros H. destruct (isWordChar c) eqn:E; [|reflexivity]. exfalso.
  unfold isWordChar in E. unfold isWhiteSpace in H.
  repeat rewrite ?orb_true_iff, ?andb_true_iff, ?N.leb_le, ?N.eqb_eq in E.
  repeat rewrite ?orb_true_iff, ?andb_true_iff, ?N.leb_le, ?N.eqb_eq in H.
  lia.
Qed.

Lemma whitespace_clean (alts : list jsstring) (s : jsstring) :
  forallb alt_ok alts = true ->
  forallb isWhiteSpace s = true ->
  forall prev, clean alts prev s = true.
Proof.
  intros Hok. induction s as [|c s IH]; intros Hs prev; [reflexivity|].
  cbn [forallb] in Hs. apply andb_prop in Hs. destruct Hs as [Hc Hs].
  cbn [clean].
  destruct (regexp_exec alts prev (c :: s)) as [n|] eqn:E.
  - exfalso.
    destruct (regexp_exec_inv _ _ _ _ Hok E)
      as (a & c0 & m & rest & _ & Heq & _ & _ & _ & Hw & _).
    injection Heq as <- _.
    rewrite (whitespace_not_word c Hc) in Hw. discriminate.
  - apply IH. exact Hs.
Qed.

Lemma soften_whitespace (s : jsstring) :
  forallb isWhiteSpace s = true -> soften s = s.
Proof.
  intros Hs. apply apply_rules_unchanged. intros r Hr.
  apply whitespace_clean; [|exact Hs].
  apply (pattern_ok r).
  apply (all_rule_ok _ aggressivePatterns_compatible r Hr).
Qed.

Lemma collapse_whitespace_run (s : jsstring) :
  forallb isWhiteSpace s = true -> collapse_from true s = [].
Proof.
  induction s as [|c s IH]; [reflexivity|]. cbn [forallb]. intros H.
  apply andb_prop in H. destruct H as [Hc Hs].
  cbn [collapse_from]. rewrite Hc. apply IH. exact Hs.
Qed.

Lemma normalize_whitespace (s : jsstring) :
  forallb isWhiteSpace s = true -> normalize s = [].
Proof.
  intros H. destruct s as [|c s]; [reflexivity|].
  cbn [forallb] in H. apply andb_prop in H. destruct H as [Hc Hs].
  unfold normalize, collapse_whitespace. cbn [collapse_from].
  rewrite Hc, (collapse_whitespace_run s Hs). reflexivity.
Qed.

(** X6. A rewrite request whose text is not empty and consists of
    whitespace only, with a valid tone, is answered with status 200, and the
    rewritten string is the tone's prefix directly followed by its suffix,
    whatever the whitespace was. *)
Theorem rewrite_whitespace_only :
  forall (rt : runtime) (text tone : jsstring),
    text <> [] -> forallb isWhiteSpace text = true -> In tone tones ->
    rewrite rt (rewrite_request text tone)
    = rewritten_response (tone_prefix tone ++ tone_suffix tone) tone.
Proof.
  intros rt text tone Hne Hws Hin.
  rewrite (rewrite_valid rt text tone Hne Hin). f_equal.
  assert (Hn : normalize (soften text) = []).
  { rewrite (soften_whitespace text Hws). apply normalize_whitespace.
    exact Hws. }
  unfold tones in Hin. cbn [In] in Hin.
  destruct Hin as [<-|[<-|[<-|[<-|[]]]]].
  - change (applyRewriteRules (toUpperCase rt) text (js "professional"))
      with (wrapProfessional (toUpperCase rt) (soften text)).
    unfold wrapProfessional. rewrite Hn. reflexivity.
  - change (applyRewriteRules (toUpperCase rt) text (js "calm"))
      with (wrapCalm (toUpperCase rt) (soften text)).
    unfold wrapCalm. rewrite Hn. reflexivity.
  - change (applyRewriteRules (toUpperCase rt) text (js "friendly"))
      with (wrapFriendly (toUpperCase rt) (soften text)).
    unfold wrapFriendly. rewrite Hn. reflexivity.
  - change (applyRewriteRules (toUpperCase rt) text (js "short"))
      with (wrapShort (soften text)).
    unfold wrapShort. rewrite Hn. reflexivity.
Qed.

Lemma rewrite_whitespace_only_witness :
  rewrite ascii_runtime (rewrite_request [32; 9; 10; 160] (js "short"))
  = rewritten_response (js "Quick note:  Let's discuss.") (js "short").
Proof.
  refine (eq_trans
    (rewrite_whitespace_only ascii_runtime [32; 9; 10; 160] (js "short")
       _ _ _) _).
  - discriminate.
  - reflexivity.
  - vm_compute. tauto.
  - vm_compute. reflexivity.
Defined.

Lemma string_value (v : js_value) :
  truthy v && typeof_string v = true <-> exists s, v = JString s /\ s <> [].
Proof.
  split.
  - intros H. apply andb_prop in H. destruct H as [Ht Hs].
    destruct v; try discriminate. destruct s as [|c s]; [discriminate|].
    exists (c :: s). split; [reflexivity|discriminate].
  - intros (s & -> & Hne). destruct s; [contradiction|reflexivity].
Qed.

Lemma array_includes_tones (v : js_value) :
  array_includes tones v = true <-> exists t, v = JString t /\ In t tones.
Proof.
  split.
  - intros H. destruct v; try discriminate. cbn [array_includes] in H.
    apply existsb_exists in H. destruct H as (t & Hin & He).
    apply jsstring_eqb_eq in He. subst t. exists s. split; [reflexivity|].
    exact Hin.
  - intros (t & -> & Hin). cbn [array_includes]. apply existsb_exists.
    exists t. split; [exact Hin|]. apply jsstring_eqb_eq. reflexivity.
Qed.

(** The rewrite handler on a destructured body: status 200 exactly for a
    non-empty text and a valid tone, status 400 otherwise. *)
Lemma rewrite_validation_body :
  forall (rt : runtime) (req : request_body),
    (status (rewrite rt req) = 200%nat <-> acceptable_rewrite req)
    /\ (status (rewrite rt req) = 200%nat \/ status (rewrite rt req) = 400%nat)
    /\ (truthy (body_text req) && typeof_string (body_text req) = false ->
        rewrite rt req
        = json_error 400
            "Invalid input: text field is required and must be a string").
Proof.
  intros rt req. unfold rewrite, rewrite_try, acceptable_rewrite.
  destruct (truthy (body_text req) && typeof_string (body_text req)) eqn:Et.
  - apply andb_prop in Et as Et'. destruct Et' as [Et1 Et2].
    rewrite Et1, Et2. cbn [negb orb].
    apply string_value in Et. destruct Et as (text & Htext & Hne).
    destruct (array_includes tones (body_tone req)) eqn:Ei.
    + pose proof Ei as Ei'. apply array_includes_tones in Ei'.
      destruct Ei' as (tone & Htone & Hin).
      assert (Htr : truthy (body_tone req) = true).
      { rewrite Htone. unfold tones in Hin. cbn [In] in Hin.
        destruct Hin as [<-|[<-|[<-|[<-|[]]]]]; reflexivity. }
      rewrite Htr. cbn [negb orb status json]. split; [|split].
      * split; [intros _|reflexivity].
        exists text, tone. repeat split; assumption.
      * left. reflexivity.
      * discriminate.
    + rewrite orb_true_r. cbn [status json_error]. split; [|split].
      * split; [discriminate|].
        intros (text' & tone & _ & _ & Htone & Hin).
        assert (Hc : array_includes tones (body_tone req) = true)
          by (apply array_includes_tones; exists tone; split; assumption).
        rewrite Hc in Ei. discriminate.
      * right. reflexivity.
      * discriminate.
  - assert (Hb : negb (truthy (body_text req))
                 || negb (typeof_string (body_text req)) = true).
    { rewrite <- negb_andb, Et. reflexivity. }
    rewrite Hb. cbn [status json_error]. split; [|split].
    + split; [discriminate|].
      intros (text & tone & Htext & Hne & _).
      assert (Hc : truthy (body_text req) && typeof_string (body_text req)
                   = true)
        by (apply string_value; exists text; split; assumption).
      rewrite Hc in Et. discriminate.
    + right. reflexivity.
    + intros _. reflexivity.
Qed.

Example short_tone_first_sentence :
  applyRewriteRules (toUpperCase ascii_runtime)
    (js "I hate it. Really? Yes!") (js "short")
  = js "Quick note: I don't prefer it. Let's discuss.".
Proof. vm_compute. reflexivity. Qed.

(** ** The moderate endpoint *)

Lemma moderate_catch_cases (e : thrown) :
  moderate_catch e
  = json_error 503 "Unable to connect to moderation service. Please try again."
  \/ moderate_catch e
     = json_error 500 "Failed to analyze message. Please try again.".
Proof.
  unfold moderate_catch. destruct (message e) as [msg|]; [|right; reflexivity].
  destruct (includes msg (js "connect")); [left|right]; reflexivity.
Qed.

Lemma trim_nonempty (s : jsstring) : trim s <> [] -> s <> [].
Proof. intros H E. apply H. rewrite E. reflexivity. Qed.

(** After validation: the handler from the credential check on. *)
Lemma moderate_accepted (rt : runtime) (w : world) (req : request_body)
  (s : jsstring) :
  body_text req = JString s -> trim s <> [] ->
  (List.length s <= 5000)%nat ->
  moderate_try rt w req
  = match HF_TOKEN w with
    | None | Some [] =>
        inr (json_error 500 "Server configuration error: HF_TOKEN not set")
    | Some token =>
        match Client_connect w (js "duchaba/Friendly_Text_Moderation") token
        with
        | Some e => inl e
        | None =>
            res <- client_predict w (js "/fetch_toxicity_level") s
                     (safer_of req) ;;
            data <- get_property res (js "data") ;;
            moderate_score rt data
        end
    end.
Proof.
  intros Ht Htrim Hlen.
  assert (Htr : truthy (JString s) = true).
  { destruct s; [contradiction Htrim; reflexivity|reflexivity]. }
  assert (He : (List.length (trim s) =? 0)%nat = false).
  { destruct (trim s); [contradiction Htrim; reflexivity|reflexivity]. }
  assert (Hl : (5000 <? List.length s)%nat = false)
    by (apply Nat.ltb_ge; exact Hlen).
  unfold moderate_try. rewrite Ht.
  cbn [string_of typeof_string]. rewrite Htr, He, Hl. reflexivity.
Qed.

Lemma moderate_rejected (rt : runtime) (w : world) (req : request_body) :
  ~ acceptable_text req ->
  moderate_try rt w req
  = inr (if negb (truthy (body_text req) && typeof_string (body_text req))
         then json_error 400
                "Invalid input: text field is required and must be a string"
         else if (List.length (trim (string_of (body_text req))) =? 0)%nat
         then json_error 400 "Invalid input: text cannot be empty"
         else json_error 400
                "Invalid input: text is too long (max 5000 characters)").
Proof.
  intros Hna. unfold moderate_try. cbv zeta.
  rewrite <- negb_andb.
  destruct (truthy (body_text req) && typeof_string (body_text req)) eqn:Et;
    [|reflexivity].
  cbn [negb]. apply string_value in Et. destruct Et as (s & Hs & Hne).
  rewrite Hs. cbn [string_of].
  destruct (List.length (trim s) =? 0)%nat eqn:He; [reflexivity|].
  destruct (5000 <? List.length s)%nat eqn:Hl; [reflexivity|].
  exfalso. apply Hna. exists s. repeat split; [exact Hs| |].
  - intros E. rewrite E in He. discriminate.
  - apply Nat.ltb_ge. exact Hl.
Qed.

Lemma acceptable_text_dec (req : request_body) :
  acceptable_text req \/ ~ acceptable_text req.
Proof.
  destruct (body_text req) as [| | | |s| |] eqn:Ht;
    try (right; intros (s' & Hs & _); rewrite Ht in Hs; discriminate).
  destruct (trim s) as [|t ts] eqn:Etrim.
  - right. intros (s' & Hs & Htr & _). rewrite Ht in Hs.
    injection Hs as <-. apply Htr. exact Etrim.
  - destruct (Nat.le_gt_cases (List.length s) 5000) as [Hl|Hl].
    + left. exists s. repeat split; [exact Ht| |exact Hl].
      rewrite Etrim. discriminate.
    + right. intros (s' & Hs & _ & Hlen). rewrite Ht in Hs.
      injection Hs as <-. lia.
Qed.

(** The moderate handler on a destructured body: status 400 exactly when
    the text fails validation. *)
Lemma moderate_validation_body :
  forall (rt : runtime) (w : world) (req : request_body),
    (status (moderate rt w req) = 400%nat <-> ~ acceptable_text req)
    /\ (~ acceptable_text req ->
        forall (rt' : runtime) (w' : world),
          moderate rt' w' req = moderate rt w req)
    /\ (forall s,
          body_text req = JString s -> s <> [] -> trim s = [] ->
          moderate rt w req
          = json_error 400 "Invalid input: text cannot be empty")
    /\ (forall s,
          body_text req = JString s -> trim s <> [] ->
          (5000 < List.length s)%nat ->
          moderate rt w req
          = json_error 400
              "Invalid input: text is too long (max 5000 characters)").
Proof.
  intros rt w req. split; [|split; [|split]].
  - split.
    + intros H Ha. destruct Ha as (s & Hs & Htrim & Hlen).
      unfold moderate in H.
      rewrite (moderate_accepted rt w req s Hs Htrim Hlen) in H.
      destruct (HF_TOKEN w) as [[|k tok]|]; try discriminate.
      destruct (Client_connect w _ _) as [e|].
      { destruct (moderate_catch_cases e) as [E|E]; rewrite E in H;
          discriminate. }
      destruct (client_predict w _ _ _) as [e|res]; cbn [bind] in H.
      { destruct (moderate_catch_cases e) as [E|E]; rewrite E in H;
          discriminate. }
      destruct (get_property res (js "data")) as [e|data]; cbn [bind] in H.
      { destruct (moderate_catch_cases e) as [E|E]; rewrite E in H;
          discriminate. }
      unfold moderate_score in H.
      destruct (truthy (optional_index_1 data)); cbn [negb] in H.
      2: { discriminate. }
      destruct (JSON_parse rt (optional_index_1 data)) as [e|v];
        cbn [bind] in H.
      { destruct (moderate_catch_cases e) as [E|E]; rewrite E in H;
          discriminate. }
      destruct (get_property v (js "max_value")) as [e|score];
        cbn [bind] in H.
      { destruct (moderate_catch_cases e) as [E|E]; rewrite E in H;
          discriminate. }
      discriminate.
    + intros Hna. unfold moderate. rewrite (moderate_rejected rt w req Hna).
      destruct (negb _); [reflexivity|].
      destruct (_ =? _)%nat; reflexivity.
  - intros Hna rt' w'. unfold moderate.
    rewrite (moderate_rejected rt w req Hna),
      (moderate_rejected rt' w' req Hna). reflexivity.
  - intros s Hs Hne Htrim. unfold moderate.
    rewrite moderate_rejected.
    + rewrite Hs. cbn [string_of typeof_string]. rewrite Htrim.
      destruct s; [contradiction|reflexivity].
    + intros (s' & Hs' & Htr & _). rewrite Hs in Hs'. injection Hs' as <-.
      contradiction.
  - intros s Hs Htrim Hlen. unfold moderate.
    rewrite moderate_rejected.
    + rewrite Hs. cbn [string_of typeof_string].
      pose proof (trim_nonempty s Htrim) as Hne.
      destruct s as [|c s]; [contradiction|]. cbn [truthy andb negb].
      destruct (trim (c :: s)); [contradiction|reflexivity].
    + intros (s' & Hs' & _ & Hl). rewrite Hs in Hs'. injection Hs' as <-.
      lia.
Qed.

(** X10. A valid text with no credential configured ([HF_TOKEN] unset, or
    set to the empty string) is answered with the configuration error,
    status 500, whatever the remote service would do. *)
Theorem moderate_missing_credential :
  forall (rt : runtime) (w : world) (req : request_body),
    acceptable_text req ->
    HF_TOKEN w = None \/ HF_TOKEN w = Some [] ->
    moderate rt w req
    = json_error 500 "Server configuration error: HF_TOKEN not set".
Proof.
  intros rt w req (s & Hs & Htrim & Hlen) Htok. unfold moderate.
  rewrite (moderate_accepted rt w req s Hs Htrim Hlen).
  destruct Htok as [-> | ->]; reflexivity.
Qed.

Lemma moderate_missing_credential_witness :
  moderate ascii_runtime
    {| HF_TOKEN := Some [];
       Client_connect := fun _ _ => None;
       client_predict := fun _ _ _ => inr JNull |}
    (moderate_request (js "you fool"))
  = json_error 500 "Server configuration error: HF_TOKEN not set".
Proof.
  apply (moderate_missing_credential ascii_runtime
           {| HF_TOKEN := Some [];
              Client_connect := fun _ _ => None;
              client_predict := fun _ _ _ => inr JNull |}
           (moderate_request (js "you fool"))).
  - exists (js "you fool"). repeat split; [discriminate|vm_compute; lia].
  - right. reflexivity.
Defined.

(** X11. A payload that parses to [null] is answered with the generic
    failure, status 500: reading [max_value] of [null] throws (a TypeError,
    whose message in V8's wording does not mention "connect"). *)
Theorem moderate_null_payload :
  forall (rt : runtime) (w : world) (req : request_body) (data : js_value),
    service_answers w req data ->
    truthy (optional_index_1 data) = true ->
    JSON_parse rt (optional_index_1 data) = inr JNull ->
    moderate rt w req
    = json_error 500 "Failed to analyze message. Please try again.".
Proof.
  intros rt w req data Ha Ht Hp.
  rewrite (moderate_answered rt w req data Ha).
  unfold moderate_score. rewrite Ht, Hp. vm_compute. reflexivity.
Qed.

Lemma moderate_null_payload_witness :
  moderate (parsing_runtime (inr JNull))
    (scoring_world (JString (js "null")))
    (moderate_request (js "you fool"))
  = json_error 500 "Failed to analyze message. Please try again.".
Proof.
  apply (moderate_null_payload (parsing_runtime (inr JNull))
           (scoring_world (JString (js "null")))
           (moderate_request (js "you fool"))
           (JArray [JNull; JString (js "null")])).
  - apply scoring_world_answers.
  - reflexivity.
  - reflexivity.
Defined.

Lemma startsWith_iff (p s : jsstring) :
  startsWith s p = true <-> exists post, s = p ++ post.
Proof.
  revert s. induction p as [|x p IH]; intros s.
  - split; [intros _; exists s; reflexivity|reflexivity].
  - destruct s as [|y s]; cbn [startsWith].
    + split; [discriminate|intros (post & H); discriminate].
    + rewrite andb_true_iff, N.eqb_eq, IH. split.
      * intros (-> & post & ->). exists post. reflexivity.
      * intros (post & H). injection H as -> ->.
        split; [reflexivity|exists post; reflexivity].
Qed.

Lemma includes_iff (sub s : jsstring) :
  includes s sub = true <-> exists pre post, s = pre ++ sub ++ post.
Proof.
  induction s as [|c s IH]; cbn [includes]; rewrite orb_true_iff,
    startsWith_iff.
  - split.
    + intros [(post & H)|H]; [|discriminate].
      exists [], post. exact H.
    + intros (pre & post & H). left.
      destruct pre as [|x pre]; [|discriminate].
      exists post. exact H.
  - rewrite IH. split.
    + intros [(post & H)|(pre & post & H)].
      * exists [], post. exact H.
      * exists (c :: pre), post. rewrite H. reflexivity.
    + intros (pre & post & H). destruct pre as [|x pre].
      * left. exists post. exact H.
      * right. injection H as _ H. exists pre, post. exact H.
Qed.

(** X12. An error is answered with status 503 exactly when its message has
    the lower-case text "connect" somewhere in it; any other error,
    "Connection refused" for one, or an error without message, is answered
    with status 500.  A failure of [Client.connect] is classified that
    way. *)
Theorem moderate_connect_substring :
  (forall e : thrown,
      status (moderate_catch e) = 503%nat
      <-> exists pre post, message e = Some (pre ++ js "connect" ++ post))
  /\ (forall e : thrown,
        status (moderate_catch e) = 503%nat
        \/ status (moderate_catch e) = 500%nat)
  /\ status (moderate_catch (Error (js "Connection refused"))) = 500%nat
  /\ (forall rt w req token e,
        acceptable_text req ->
        HF_TOKEN w = Some token -> token <> [] ->
        Client_connect w (js "duchaba/Friendly_Text_Moderation") token
        = Some e ->
        moderate rt w req = moderate_catch e).
Proof.
  split; [|split; [|split]].
  - intros e. unfold moderate_catch. destruct (message e) as [msg|].
    + destruct (includes msg (js "connect")) eqn:Ei.
      * split; [intros _|reflexivity].
        apply includes_iff in Ei. destruct Ei as (pre & post & ->).
        exists pre, post. reflexivity.
      * split; [discriminate|].
        intros (pre & post & H). injection H as H.
        assert (Hc : includes msg (js "connect") = true)
          by (apply includes_iff; exists pre, post; exact H).
        rewrite Hc in Ei. discriminate.
    + split; [discriminate|]. intros (pre & post & H). discriminate.
  - intros e. destruct (moderate_catch_cases e) as [E|E]; rewrite E;
      [left|right]; reflexivity.
  - reflexivity.
  - intros rt w req token e (s & Hs & Htrim & Hlen) Htok Hne Hc.
    unfold moderate. rewrite (moderate_accepted rt w req s Hs Htrim Hlen).
    rewrite Htok. destruct token as [|k token]; [contradiction|].
    rewrite Hc. reflexivity.
Qed.

Lemma moderate_connect_substring_witness :
  status (moderate_catch (Error (js "connect ECONNREFUSED 127.0.0.1:443")))
  = 503%nat.
Proof.
  apply (proj2 (proj1 moderate_connect_substring
           (Error (js "connect ECONNREFUSED 127.0.0.1:443")))).
  exists [], (js " ECONNREFUSED 127.0.0.1:443"). reflexivity.
Defined.

(** ** Texts the softening phase leaves alone *)

Lemma split_clean (alts : list jsstring) (s : jsstring) :
  forall prev,
    (forall pre post, s = pre ++ post ->
                      regexp_exec alts (last_char prev pre) post = None) ->
    clean alts prev s = true.
Proof.
  induction s as [|c s IH]; intros prev H; [reflexivity|].
  cbn [clean]. pose proof (H [] (c :: s) eq_refl) as H0.
  change (last_char prev []) with prev in H0. rewrite H0.
  apply IH. intros pre post Hs.
  apply (H (c :: pre) post). rewrite Hs. reflexivity.
Qed.

(** X13. The softening phase changes a text exactly when some rule's
    pattern matches somewhere in it: [soften t = t] if and only if at every
    position of [t] every pattern of [aggressivePatterns] fails. *)
Theorem soften_fixed_points :
  forall t : jsstring,
    soften t = t
    <-> (forall r pre post,
            In r aggressivePatterns -> t = pre ++ post ->
            regexp_exec (pattern r) (last_char None pre) post = None).
Proof.
  intros t. split.
  - intros Ht r pre post Hr Hs. apply clean_split.
    + apply (pattern_ok r).
      apply (all_rule_ok _ aggressivePatterns_compatible r Hr).
    + rewrite <- Hs, <- Ht. apply soften_clean. exact Hr.
  - intros H. apply apply_rules_unchanged. intros r Hr.
    apply split_clean. intros pre post Hs. apply (H r pre post Hr Hs).
Qed.

Lemma soften_fixed_points_witness :
  regexp_exec [js "never"; js "always"] (last_char None (js "all ways "))
    (js "lead here") = None.
Proof.
  apply (proj1 (soften_fixed_points (js "all ways lead here"))
           ltac:(vm_compute; reflexivity)
           {| pattern := [js "never"; js "always"];
              replacement := js "sometimes" |}
           (js "all ways ") (js "lead here")).
  - vm_compute. tauto.
  - vm_compute. reflexivity.
Defined.

(** * The engine state *)

(** ** The stateful replace is the scan *)

Lemma replace_from_scan (r : rule) (s : jsstring) :
  forall prev k,
    replace_from r prev k s
    = scan (Alternatives (pattern r)) (replacement r) prev k s.
Proof.
  induction s as [|c s IH]; intros prev k; [reflexivity|].
  cbn [replace_from scan source_exec]. destruct k as [|k]; [|apply IH].
  destruct (regexp_exec (pattern r) prev (c :: s)); rewrite IH; reflexivity.
Qed.

Lemma collapse_from_scan (s : jsstring) :
  (forall prev, scan WhitespaceRun [32] prev O s = collapse_from false s)
  /\ (forall prev,
        scan WhitespaceRun [32] prev (whitespace_run s) s
        = collapse_from true s).
Proof.
  induction s as [|c s [IHa IHb]]; [split; reflexivity|].
  cbn [scan source_exec whitespace_run collapse_from].
  destruct (isWhiteSpace c).
  - split; intros prev.
    + cbn [Nat.pred app]. rewrite IHb. reflexivity.
    + apply IHb.
  - split; intros prev; rewrite IHa; reflexivity.
Qed.

Lemma whitespace_run_length (s : jsstring) :
  (whitespace_run s <= List.length s)%nat.
Proof.
  induction s as [|c s IH]; [apply Nat.le_refl|].
  cbn [whitespace_run List.length]. destruct (isWhiteSpace c); lia.
Qed.

Lemma source_exec_nil (src : regexp_source) (prev : option N) :
  source_ok src = true -> source_exec src prev [] = None.
Proof.
  destruct src as [alts|]; cbn [source_ok source_exec]; intros Hok;
    [|reflexivity].
  apply regexp_exec_nil. exact Hok.
Qed.

Lemma source_exec_length (src : regexp_source) (prev : option N)
  (s : jsstring) (n : nat) :
  source_ok src = true -> source_exec src prev s = Some n ->
  (1 <= n <= List.length s)%nat.
Proof.
  destruct src as [alts|]; cbn [source_ok source_exec]; intros Hok H.
  - destruct (regexp_exec_inv _ _ _ _ Hok H)
      as (a & c & m & rest & _ & Hs & Hn & _).
    rewrite Hs, length_app, Hn. simpl in Hn. lia.
  - pose proof (whitespace_run_length s) as Hl.
    destruct (whitespace_run s) as [|k]; [discriminate|].
    injection H as <-. lia.
Qed.

Lemma matches_from_skip (src : regexp_source) (m : jsstring) :
  forall prev i rest,
    matches_from src prev (List.length m) i (m ++ rest)
    = matches_from src (last_char prev m) O (i + List.length m) rest.
Proof.
  induction m as [|c m IH]; intros prev i rest.
  - cbn [List.length app last_char fold_left]. rewrite Nat.add_0_r.
    reflexivity.
  - cbn [List.length app matches_from]. rewrite IH.
    replace (S i + List.length m)%nat with (i + S (List.length m))%nat by lia.
    reflexivity.
Qed.

Lemma matches_from_bound (src : regexp_source) (s : jsstring) :
  forall prev k i p n tl,
    matches_from src prev k i s = (p, n) :: tl -> (i + k <= p)%nat.
Proof.
  induction s as [|c s IH]; intros prev k i p n tl H; [discriminate|].
  cbn [matches_from] in H. destruct k as [|k].
  - destruct (source_exec src prev (c :: s)) as [n0|].
    + injection H as <- _ _. lia.
    + apply IH in H. lia.
  - apply IH in H. lia.
Qed.

Lemma skipn_length_app (pre s : jsstring) :
  skipn (List.length pre) (pre ++ s) = s.
Proof. induction pre as [|x pre IH]; [reflexivity|exact IH]. Qed.

Lemma substitute_step (repl pre rest : jsstring) (c : N)
  (ms : list (nat * nat)) :
  (forall p n tl, ms = (p, n) :: tl -> (S (List.length pre) <= p)%nat) ->
  substitute (pre ++ c :: rest) repl (List.length pre) ms
  = c :: substitute (pre ++ c :: rest) repl (S (List.length pre)) ms.
Proof.
  intros H.
  assert (E1 : skipn (List.length pre) (pre ++ c :: rest) = c :: rest)
    by apply skipn_length_app.
  assert (E2 : skipn (S (List.length pre)) (pre ++ c :: rest) = rest).
  { replace (pre ++ c :: rest) with ((pre ++ [c]) ++ rest)
      by (rewrite <- app_assoc; reflexivity).
    replace (S (List.length pre)) with (List.length (pre ++ [c]))
      by (rewrite length_app; simpl; lia).
    apply skipn_length_app. }
  destruct ms as [|[p n] tl]; cbn [substitute].
  - rewrite E1, E2. reflexivity.
  - specialize (H p n tl eq_refl).
    assert (L1 : (List.length pre <=? p)%nat = true)
      by (apply Nat.leb_le; lia).
    assert (L2 : (S (List.length pre) <=? p)%nat = true)
      by (apply Nat.leb_le; lia).
    rewrite L1, L2, E1, E2.
    replace (p - List.length pre)%nat with (S (p - S (List.length pre)))
      by lia.
    reflexivity.
Qed.

(** Replacing the matches of the scan, gathered first, gives the string
    the scan builds on its way. *)
Lemma substitute_matches (src : regexp_source) (repl : jsstring)
  (text : jsstring) :
  source_ok src = true ->
  forall s pre prev k,
    text = pre ++ s -> (k <= List.length s)%nat ->
    substitute text repl (List.length pre + k)
      (matches_from src prev k (List.length pre) s)
    = scan src repl prev k s.
Proof.
  intros Hok. induction s as [|c s IH]; intros pre prev k HS Hk.
  - destruct k; [|simpl in Hk; lia]. cbn [matches_from substitute scan].
    rewrite Nat.add_0_r, HS. apply skipn_length_app.
  - assert (HS' : text = (pre ++ [c]) ++ s)
      by (rewrite HS, <- app_assoc; reflexivity).
    assert (Hl : List.length (pre ++ [c]) = S (List.length pre))
      by (rewrite length_app; simpl; lia).
    cbn [matches_from scan]. destruct k as [|k].
    + destruct (source_exec src prev (c :: s)) as [n|] eqn:E.
      * pose proof (source_exec_length _ _ _ _ Hok E) as Hn.
        simpl in Hn.
        cbn [substitute]. rewrite Nat.add_0_r.
        rewrite Nat.leb_refl, Nat.sub_diag. cbn [firstn app]. f_equal.
        rewrite <- Hl.
        replace (List.length pre + n)%nat
          with (List.length (pre ++ [c]) + Nat.pred n)%nat by lia.
        apply IH; [exact HS'|lia].
      * rewrite Nat.add_0_r. rewrite HS at 1.
        rewrite substitute_step.
        -- f_equal. rewrite <- HS. rewrite <- Hl.
           rewrite <- (Nat.add_0_r (List.length (pre ++ [c]))) at 1.
           apply IH; [exact HS'|lia].
        -- intros p n tl Hm. apply matches_from_bound in Hm. lia.
    + rewrite <- Hl.
      replace (List.length pre + S k)%nat
        with (List.length (pre ++ [c]) + k)%nat by lia.
      apply IH; [exact HS'|simpl in Hk; lia].
Qed.

(** The search of one exec finds the next match of the scan. *)
Lemma search_matches (src : regexp_source) (s : jsstring) :
  source_ok src = true ->
  forall prev i,
    match search src prev i s with
    | None => matches_from src prev O i s = []
    | Some (p, n) =>
        exists m rest,
          s = m ++ rest /\ p = (i + List.length m)%nat
          /\ (1 <= n <= List.length rest)%nat
          /\ matches_from src prev O i s
             = (p, n) :: matches_from src (last_char prev m) n p rest
    end.
Proof.
  intros Hok. induction s as [|c s IH]; intros prev i.
  - cbn [search]. rewrite (source_exec_nil _ prev Hok). reflexivity.
  - cbn [search matches_from].
    destruct (source_exec src prev (c :: s)) as [n|] eqn:E.
    + pose proof (source_exec_length _ _ _ _ Hok E) as Hn.
      exists [], (c :: s). split; [reflexivity|].
      split; [simpl; lia|]. split; [exact Hn|].
      destruct n as [|n]; [lia|]. reflexivity.
    + specialize (IH (Some c) (S i)).
      destruct (search src (Some c) (S i) s) as [[p n]|]; [|exact IH].
      destruct IH as (m & rest & Hs & Hp & Hn & Hm).
      exists (c :: m), rest. split; [rewrite Hs; reflexivity|].
      split; [simpl; lia|]. split; [lia|]. exact Hm.
Qed.

Lemma char_before_last (pre s : jsstring) :
  char_before (pre ++ s) (List.length pre) = last_char None pre.
Proof.
  induction pre as [|x pre _] using rev_ind; [reflexivity|].
  rewrite length_app. cbn [List.length].
  replace (List.length pre + 1)%nat with (S (List.length pre)) by lia.
  cbn [char_before]. rewrite <- app_assoc.
  rewrite nth_error_app2 by apply Nat.le_refl.
  rewrite Nat.sub_diag. unfold last_char. rewrite fold_left_app.
  reflexivity.
Qed.

Lemma cell_set_same (h : heap) (a i : nat) :
  cell (set_lastIndex h a i) a
  = {| source := source (cell h a); lastIndex := i |}.
Proof. cbn [set_lastIndex cell]. rewrite Nat.eqb_refl. reflexivity. Qed.

Lemma source_set (h : heap) (a i x : nat) :
  source (cell (set_lastIndex h a i) x) = source (cell h x).
Proof.
  cbn [set_lastIndex cell]. destruct (Nat.eqb_spec x a) as [->|]; reflexivity.
Qed.

(** The loop of exec calls, from [lastIndex] on, gathers the matches of the
    scan and ends with [lastIndex] 0; the fuel is enough. *)
Lemma collect_matches (src : regexp_source) (a : nat) (text : jsstring) :
  source_ok src = true ->
  forall fuel s pre h,
    text = pre ++ s ->
    lastIndex (cell h a) = List.length pre ->
    source (cell h a) = src ->
    (List.length s < fuel)%nat ->
    exists h',
      collect fuel h a text
      = Some (h', matches_from src (last_char None pre) O
                    (List.length pre) s)
      /\ lastIndex (cell h' a) = O
      /\ (forall x, source (cell h' x) = source (cell h x))
      /\ next h' = next h.
Proof.
  intros Hok. induction fuel as [|fuel IH]; intros s pre h HS Hli Hsrc Hf;
    [lia|].
  cbn [collect]. unfold RegExpExec. rewrite Hli, Hsrc.
  assert (Hlt : (List.length text <? List.length pre)%nat = false).
  { apply Nat.ltb_ge. rewrite HS, length_app. lia. }
  assert (Hcb : char_before text (List.length pre) = last_char None pre)
    by (rewrite HS; apply char_before_last).
  assert (Hsk : skipn (List.length pre) text = s)
    by (rewrite HS; apply skipn_length_app).
  rewrite Hlt, Hcb, Hsk.
  pose proof (search_matches src s Hok (last_char None pre)
                (List.length pre)) as Hs.
  destruct (search src (last_char None pre) (List.length pre) s)
    as [[p n]|].
  - destruct Hs as (m & rest & Hsm & Hp & Hn & Hm).
    assert (Hn0 : (n =? 0)%nat = false) by (apply Nat.eqb_neq; lia).
    rewrite Hn0.
    assert (Hfl : List.length (firstn n rest) = n)
      by (apply firstn_length_le; lia).
    destruct (IH (skipn n rest) (pre ++ m ++ firstn n rest)
                (set_lastIndex h a (p + n)))
      as (h' & Hc & Hli' & Hsrc' & Hnx).
    + rewrite HS, Hsm. rewrite <- !app_assoc.
      rewrite (firstn_skipn n rest). reflexivity.
    + rewrite cell_set_same. cbn [lastIndex].
      rewrite !length_app, Hfl. lia.
    + rewrite source_set. exact Hsrc.
    + rewrite length_skipn. rewrite Hsm, length_app in Hf. lia.
    + exists h'. rewrite Hc. repeat split.
      * rewrite Hm. do 2 f_equal.
        pose proof (matches_from_skip src (firstn n rest)
                      (last_char (last_char None pre) m) p (skipn n rest))
          as Hk.
        rewrite Hfl, (firstn_skipn n rest) in Hk. rewrite Hk.
        rewrite !length_app, Hfl, Hp. rewrite !last_char_app.
        replace (List.length pre + (List.length m + n))%nat
          with (List.length pre + List.length m + n)%nat by lia.
        reflexivity.
      * exact Hli'.
      * intros x. rewrite Hsrc', source_set. reflexivity.
      * rewrite Hnx. reflexivity.
  - exists (set_lastIndex h a 0). rewrite Hs. repeat split.
    + rewrite cell_set_same. reflexivity.
    + intros x. apply source_set.
Qed.

(** [replace] with a pattern object: whatever its [lastIndex] was, the
    result is the scan's and [lastIndex] is 0 afterwards. *)
Lemma RegExp_replace_scan (h : heap) (a : nat) (text repl : jsstring) :
  source_ok (source (cell h a)) = true ->
  exists h',
    RegExp_replace h a text repl
    = Some (h', scan (source (cell h a)) repl None O text)
    /\ lastIndex (cell h' a) = O
    /\ (forall x, source (cell h' x) = source (cell h x))
    /\ next h' = next h.
Proof.
  intros Hok. unfold RegExp_replace.
  destruct (collect_matches (source (cell h a)) a text Hok
              (2 + List.length text) text [] (set_lastIndex h a 0))
    as (h' & Hc & Hli & Hsrc & Hnx).
  - reflexivity.
  - rewrite cell_set_same. reflexivity.
  - apply source_set.
  - lia.
  - exists h'. rewrite Hc. repeat split.
    + f_equal. f_equal.
      apply (substitute_matches (source (cell h a)) repl text Hok text []
               None O).
      * reflexivity.
      * lia.
    + exact Hli.
    + intros x. rewrite Hsrc. apply source_set.
    + rewrite Hnx. reflexivity.
Qed.

(** ** A call of the rewrite engine *)

Lemma alloc_patterns_spec (rules : list rule) :
  forall h h1 objs,
    alloc_patterns h rules = (h1, objs) ->
    Forall2 (fun r o => source (cell h1 (fst o)) = Alternatives (pattern r)
                        /\ snd o = replacement r) rules objs
    /\ (forall x, (x < next h)%nat -> cell h1 x = cell h x)
    /\ (next h <= next h1)%nat.
Proof.
  induction rules as [|r rules IH]; intros h h1 objs H.
  - cbn [alloc_patterns] in H. injection H as <- <-.
    repeat split; [constructor|lia].
  - cbn [alloc_patterns alloc] in H.
    destruct (alloc_patterns _ rules) as [h2 objs'] eqn:E.
    injection H as <- <-.
    destruct (IH _ _ _ E) as (HF & Hcell & Hnext). cbn [next] in Hcell, Hnext.
    repeat split.
    + constructor; [|exact HF]. cbn [fst snd]. split; [|reflexivity].
      rewrite (Hcell (next h)) by lia. cbn [cell].
      rewrite Nat.eqb_refl. reflexivity.
    + intros x Hx. rewrite (Hcell x) by lia. cbn [cell].
      destruct (Nat.eqb_spec x (next h)); [lia|reflexivity].
    + lia.
Qed.

Lemma soften_loop_scan (rules : list rule) :
  forallb rule_ok rules = true ->
  forall objs h text,
    Forall2 (fun r o => source (cell h (fst o)) = Alternatives (pattern r)
                        /\ snd o = replacement r) rules objs ->
    exists h', soften_loop h objs text = Some (h', apply_rules rules text).
Proof.
  induction rules as [|r rules IH]; intros Hok objs h text HF.
  - inversion HF; subst. exists h. reflexivity.
  - inversion HF as [|r0 [a repl] rules0 objs' [Hsrc Hrepl] HF']; subst.
    cbn [fst snd] in Hsrc, Hrepl.
    cbn [forallb] in Hok. apply andb_prop in Hok. destruct Hok as [Hr Hok].
    cbn [soften_loop].
    destruct (RegExp_replace_scan h a text repl) as (h1 & Hrep & _ & Hs & _).
    { rewrite Hsrc. apply (pattern_ok r Hr). }
    rewrite Hrep, Hsrc, Hrepl.
    destruct (IH Hok objs' h1
                (scan (Alternatives (pattern r)) (replacement r) None O text))
      as (h' & Hl).
    + apply (Forall2_impl _ (fun r1 o
               (H : source (cell h (fst o)) = Alternatives (pattern r1)
                    /\ snd o = replacement r1) =>
               conj (eq_trans (Hs (fst o)) (proj1 H)) (proj2 H)) HF').
    + exists h'. rewrite Hl. cbn [apply_rules fold_left].
      unfold replace at 2. rewrite replace_from_scan. reflexivity.
Qed.

Lemma normalize_run_pure (h : heap) (text : jsstring) :
  exists h', normalize_run h text = Some (h', normalize text).
Proof.
  unfold normalize_run. cbn [alloc].
  match goal with
  | |- context [RegExp_replace ?h1 ?a _ _] =>
      destruct (RegExp_replace_scan h1 a text [32]) as (h' & H & _)
  end.
  - cbn [cell]. rewrite Nat.eqb_refl. reflexivity.
  - exists h'. rewrite H. cbn [cell]. rewrite Nat.eqb_refl. cbn [source].
    rewrite (proj1 (collapse_from_scan text) None). reflexivity.
Qed.

Lemma applyRewriteRules_run_pure (up : N -> jsstring) (h : heap)
  (text tone : jsstring) :
  exists h',
    applyRewriteRules_run up h text tone
    = Some (h', applyRewriteRules up text tone).
Proof.
  unfold applyRewriteRules_run, applyRewriteRules.
  destruct (alloc_patterns h aggressivePatterns) as [h1 objs] eqn:E.
  destruct (alloc_patterns_spec _ _ _ _ E) as (HF & _ & _).
  assert (Hok : forallb rule_ok aggressivePatterns = true).
  { pose proof aggressivePatterns_compatible as H.
    apply andb_prop in H. apply H. }
  destruct (soften_loop_scan aggressivePatterns Hok objs h1 text HF)
    as (h2 & Hl).
  rewrite Hl. change (apply_rules aggressivePatterns text) with (soften text).
  destruct (normalize_run_pure h2 (soften text)) as (h3 & Hn).
  unfold wrapProfessional_run, wrapCalm_run, wrapFriendly_run, wrapShort_run,
    wrapProfessional, wrapCalm, wrapFriendly, wrapShort.
  rewrite Hn.
  destruct (jsstring_eqb tone (js "professional")); [exists h3; reflexivity|].
  destruct (jsstring_eqb tone (js "calm")); [exists h3; reflexivity|].
  destruct (jsstring_eqb tone (js "friendly")); [exists h3; reflexivity|].
  destruct (jsstring_eqb tone (js "short")); [exists h3; reflexivity|].
  exists h2. reflexivity.
Qed.

(** ** The handlers on [req.body] *)

Lemma destructure_missing (b : js_value) :
  (exists e, destructure b = inl e) <-> b = JUndefined \/ b = JNull.
Proof.
  split.
  - intros (e & H). destruct b; try discriminate; tauto.
  - intros [-> | ->]; eexists; reflexivity.
Qed.

Lemma post_moderate_body (rt : runtime) (w : world) (b : js_value)
  (req : request_body) :
  destructure b = inr req -> post_moderate rt w b = moderate rt w req.
Proof. intros H. unfold post_moderate, moderate. rewrite H. reflexivity. Qed.

Lemma post_moderate_missing (rt : runtime) (w : world) (b : js_value) :
  b = JUndefined \/ b = JNull ->
  post_moderate rt w b
  = json_error 500 "Failed to analyze message. Please try again.".
Proof. intros [-> | ->]; vm_compute; reflexivity. Qed.

Lemma post_rewrite_outcome (rt : runtime) (h : heap) (b : js_value) :
  exists h', post_rewrite rt h b = Some (h', rewrite_outcome rt b).
Proof.
  unfold post_rewrite, rewrite_outcome.
  destruct (destructure b) as [e|req]; [exists h; reflexivity|].
  unfold rewrite_try_run, rewrite, rewrite_try.
  destruct (negb (truthy (body_text req))
            || negb (typeof_string (body_text req)));
    [exists h; reflexivity|].
  destruct (negb (truthy (body_tone req))
            || negb (array_includes tones (body_tone req)));
    [exists h; reflexivity|].
  destruct (applyRewriteRules_run_pure (toUpperCase rt) h
              (string_of (body_text req)) (string_of (body_tone req)))
    as (h' & H).
  exists h'. rewrite H. reflexivity.
Qed.

Lemma serve_rewrite_last (rt : runtime) (tr : list (world * request)) :
  forall (h : heap) (w : world) (b : js_value),
  exists h' rs,
    serve rt h (tr ++ [(w, PostRewrite b)])
    = Some (h', rs ++ [rewrite_outcome rt b])
    /\ List.length rs = List.length tr.
Proof.
  induction tr as [|[w0 q0] tr IH]; intros h w b.
  - cbn [app serve handle].
    destruct (post_rewrite_outcome rt h b) as (h' & H). rewrite H.
    exists h', []. split; reflexivity.
  - cbn [app serve].
    assert (Hq : exists h1 res, handle rt w0 h q0 = Some (h1, res)).
    { destruct q0 as [b0|b0]; cbn [handle].
      - exists h, (post_moderate rt w0 b0). reflexivity.
      - destruct (post_rewrite_outcome rt h b0) as (h1 & H).
        exists h1, (rewrite_outcome rt b0). exact H. }
    destruct Hq as (h1 & res & Hq). rewrite Hq.
    destruct (IH h1 w b) as (h' & rs & Hs & Hl). rewrite Hs.
    exists h', (res :: rs). split; [reflexivity|]. simpl. rewrite Hl.
    reflexivity.
Qed.

(** C8. The rewrite operation is deterministic, and this is a property of
    the code: the pattern objects are RegExp objects with a mutable
    [lastIndex], kept in an engine state that goes from one request to the
    next.  After any two runs of the server, from any two engine states and
    in any two environments, the same rewrite request body gets the same
    answer.  A call of [applyRewriteRules] returns, in every engine state,
    the string the pure function gives; and [replace] with a pattern object
    gives the result of the scan and leaves [lastIndex] at 0 whatever
    [lastIndex] was before, so that even a pattern object used before could
    not change the output.  For a non-empty text and a valid tone the answer
    is the success response carrying that string. *)
Theorem rewrite_deterministic :
  (forall (rt : runtime) (tr1 tr2 : list (world * request)) (h1 h2 : heap)
          (w1 w2 : world) (b : js_value),
      exists res ha hb rs1 rs2,
        serve rt h1 (tr1 ++ [(w1, PostRewrite b)]) = Some (ha, rs1 ++ [res])
        /\ serve rt h2 (tr2 ++ [(w2, PostRewrite b)])
           = Some (hb, rs2 ++ [res])
        /\ List.length rs1 = List.length tr1
        /\ List.length rs2 = List.length tr2)
  /\ (forall (up : N -> jsstring) (h : heap) (text tone : jsstring),
        exists h',
          applyRewriteRules_run up h text tone
          = Some (h', applyRewriteRules up text tone))
  /\ (forall (h : heap) (a : nat) (alts : list jsstring)
             (text repl : jsstring),
        source (cell h a) = Alternatives alts ->
        forallb alt_ok alts = true ->
        exists h',
          RegExp_replace h a text repl
          = Some (h', replace {| pattern := alts; replacement := repl |} text)
          /\ lastIndex (cell h' a) = O)
  /\ (forall (rt : runtime) (h : heap) (text tone : jsstring),
        text <> [] -> In tone tones ->
        exists h',
          post_rewrite rt h (rewrite_body text tone)
          = Some (h', rewritten_response
                        (applyRewriteRules (toUpperCase rt) text tone) tone)).
Proof.
  split; [|split; [|split]].
  - intros rt tr1 tr2 h1 h2 w1 w2 b.
    destruct (serve_rewrite_last rt tr1 h1 w1 b) as (ha & rs1 & H1 & L1).
    destruct (serve_rewrite_last rt tr2 h2 w2 b) as (hb & rs2 & H2 & L2).
    exists (rewrite_outcome rt b), ha, hb, rs1, rs2.
    repeat split; assumption.
  - exact applyRewriteRules_run_pure.
  - intros h a alts text repl Hsrc Hok.
    destruct (RegExp_replace_scan h a text repl) as (h' & H & Hl & _).
    { rewrite Hsrc. exact Hok. }
    exists h'. split; [|exact Hl]. rewrite H, Hsrc. unfold replace.
    rewrite replace_from_scan. reflexivity.
  - intros rt h text tone Ht Hin.
    destruct (post_rewrite_outcome rt h (rewrite_body text tone))
      as (h' & H).
    exists h'. rewrite H. f_equal. f_equal.
    change (rewrite_outcome rt (rewrite_body text tone))
      with (rewrite rt (rewrite_request text tone)).
    apply rewrite_valid; assumption.
Qed.

Lemma rewrite_deterministic_witness :
  exists h',
    RegExp_replace
      (set_lastIndex
         (fst (alloc empty_heap (Alternatives [js "fail"; js "failed"])))
         0%nat 7%nat)
      0%nat (js "fail failed fails") (js "didn't work out")
    = Some (h', js "didn't work out didn't work out fails")
    /\ lastIndex (cell h' 0%nat) = O.
Proof.
  destruct (proj1 (proj2 (proj2 rewrite_deterministic))
              (set_lastIndex
                 (fst (alloc empty_heap
                         (Alternatives [js "fail"; js "failed"])))
                 0%nat 7%nat)
              0%nat [js "fail"; js "failed"]
              (js "fail failed fails") (js "didn't work out")
              ltac:(reflexivity) ltac:(vm_compute; reflexivity))
    as (h' & H & Hl).
  exists h'. split; [|exact Hl]. rewrite H. vm_compute. reflexivity.
Defined.

(** X7. Validation of the rewrite endpoint.  Every request is answered.
    The answer has status 200 exactly when the body is an object whose text
    is a non-empty string and whose tone is one of the four tone strings
    (compared exactly, case included); it has status 500 exactly when the
    body is [undefined] or [null], where the destructuring throws; every
    other request is answered with status 400, a bad text being reported
    before a bad tone. *)
Theorem rewrite_validation :
  forall (rt : runtime) (h : heap) (b : js_value),
  exists h' res,
    post_rewrite rt h b = Some (h', res)
    /\ (status res = 200%nat
        <-> exists req, destructure b = inr req /\ acceptable_rewrite req)
    /\ (status res = 500%nat <-> b = JUndefined \/ b = JNull)
    /\ (status res = 200%nat \/ status res = 400%nat \/ status res = 500%nat)
    /\ (forall req,
          destructure b = inr req ->
          truthy (body_text req) && typeof_string (body_text req) = false ->
          res = json_error 400
                  "Invalid input: text field is required and must be a string").
Proof.
  intros rt h b. destruct (post_rewrite_outcome rt h b) as (h' & H).
  exists h', (rewrite_outcome rt b). split; [exact H|].
  unfold rewrite_outcome. destruct (destructure b) as [e|req] eqn:Ed.
  - assert (Hb : b = JUndefined \/ b = JNull)
      by (apply destructure_missing; exists e; exact Ed).
    cbn [status json_error]. repeat split; try discriminate; auto.
    intros (req & Hreq & _). discriminate.
  - destruct (rewrite_validation_body rt req) as (H200 & Hst & Hbad).
    split; [|split; [|split]].
    + rewrite H200. split.
      * intros Ha. exists req. split; [reflexivity|exact Ha].
      * intros (req' & Hreq & Ha). injection Hreq as <-. exact Ha.
    + split.
      * intros H5. destruct Hst as [Hs|Hs]; rewrite Hs in H5; discriminate.
      * intros Hb. apply destructure_missing in Hb. destruct Hb as (e & He).
        rewrite He in Ed. discriminate.
    + destruct Hst as [Hs|Hs]; auto.
    + intros req' Hreq Ht. injection Hreq as <-. apply Hbad. exact Ht.
Qed.

Lemma rewrite_validation_witness :
  exists h',
    post_rewrite ascii_runtime empty_heap
      (JObject [(js "text", JNumber (number_of_Z 5));
                (js "tone", JString (js "loud"))])
    = Some (h', json_error 400
                  "Invalid input: text field is required and must be a string").
Proof.
  destruct (rewrite_validation ascii_runtime empty_heap
              (JObject [(js "text", JNumber (number_of_Z 5));
                        (js "tone", JString (js "loud"))]))
    as (h' & res & Hp & _ & _ & _ & Hbad).
  exists h'. rewrite Hp. f_equal. f_equal.
  apply (Hbad _ eq_refl). reflexivity.
Defined.

(** X8. Validation of the moderate endpoint.  The answer has status 400
    exactly when the body can be destructured and its text is not a string,
    is empty or blank after trimming, or has more than 5000 code units
    before trimming; a body that is [undefined] or [null] makes the
    destructuring throw and is answered with the generic failure, status
    500.  In both cases the answer is the same whatever the credential and
    the remote service are.  A blank text is reported as empty even when it
    is too long, and the limit counts the untrimmed text. *)
Theorem moderate_validation :
  forall (rt : runtime) (w : world) (b : js_value),
    (status (post_moderate rt w b) = 400%nat
     <-> exists req, destructure b = inr req /\ ~ acceptable_text req)
    /\ (b = JUndefined \/ b = JNull ->
        post_moderate rt w b
        = json_error 500 "Failed to analyze message. Please try again.")
    /\ ((exists req, destructure b = inr req /\ ~ acceptable_text req)
        \/ b = JUndefined \/ b = JNull ->
        forall (rt' : runtime) (w' : world),
          post_moderate rt' w' b = post_moderate rt w b)
    /\ (forall req s,
          destructure b = inr req ->
          body_text req = JString s -> s <> [] -> trim s = [] ->
          post_moderate rt w b
          = json_error 400 "Invalid input: text cannot be empty")
    /\ (forall req s,
          destructure b = inr req ->
          body_text req = JString s -> trim s <> [] ->
          (5000 < List.length s)%nat ->
          post_moderate rt w b
          = json_error 400
              "Invalid input: text is too long (max 5000 characters)").
Proof.
  intros rt w b. split; [|split; [|split; [|split]]].
  - destruct (destructure b) as [e|req] eqn:Ed.
    + assert (Hb : b = JUndefined \/ b = JNull)
        by (apply destructure_missing; exists e; exact Ed).
      rewrite (post_moderate_missing rt w b Hb). split; [discriminate|].
      intros (req & Hreq & _). discriminate.
    + rewrite (post_moderate_body rt w b req Ed).
      destruct (moderate_validation_body rt w req) as (H400 & _).
      rewrite H400. split.
      * intros Ha. exists req. split; [reflexivity|exact Ha].
      * intros (req' & Hreq & Ha). injection Hreq as <-. exact Ha.
  - apply post_moderate_missing.
  - intros [(req & Hreq & Hna)|Hb] rt' w'.
    + rewrite !(post_moderate_body _ _ b req Hreq).
      destruct (moderate_validation_body rt w req) as (_ & Hind & _).
      apply Hind. exact Hna.
    + rewrite !(post_moderate_missing _ _ b Hb). reflexivity.
  - intros req s Hreq Hs Hne Htrim.
    rewrite (post_moderate_body rt w b req Hreq).
    destruct (moderate_validation_body rt w req) as (_ & _ & Hblank & _).
    apply (Hblank s); assumption.
  - intros req s Hreq Hs Htrim Hlen.
    rewrite (post_moderate_body rt w b req Hreq).
    destruct (moderate_validation_body rt w req) as (_ & _ & _ & Hlong).
    apply (Hlong s); assumption.
Qed.

Lemma moderate_validation_witness :
  post_moderate ascii_runtime offline_world
    (moderate_body (js "  ok" ++ repeat 32 4997))
  = json_error 400 "Invalid input: text is too long (max 5000 characters)".
Proof.
  apply (proj2 (proj2 (proj2 (proj2 (moderate_validation ascii_runtime
           offline_world (moderate_body (js "  ok" ++ repeat 32 4997))))))
           (moderate_request (js "  ok" ++ repeat 32 4997))
           (js "  ok" ++ repeat 32 4997)).
  - reflexivity.
  - reflexivity.
  - vm_compute. discriminate.
  - vm_compute. lia.
Defined.

(** X9. Every answer of the moderate endpoint is either one of six fixed
    error answers (status 400, 500 or 503) or the success answer with
    status 200.  The success answer is given only when the request passed
    validation, the credential is set and the remote service returned a
    result: its [raw] is that result's [data], its [score01] is the
    [max_value] of the payload parsed from [data[1]], as received.  What the
    [try] block throws is answered by the [catch] block, whose answer
    depends on the error through its status only: the message of an error
    never reaches the caller. *)
Theorem moderate_answers_closed :
  forall (rt : runtime) (w : world) (b : js_value),
    (In (post_moderate rt w b) moderate_errors
     \/ exists req data v score,
          destructure b = inr req
          /\ service_answers w req data
          /\ truthy (optional_index_1 data) = true
          /\ JSON_parse rt (optional_index_1 data) = inr v
          /\ get_property v (js "max_value") = inr score
          /\ post_moderate rt w b
             = score_response
                 (Math_round (number_mul (ToNumber rt score)
                                (number_of_Z 100)))
                 score data)
    /\ (forall req e,
          destructure b = inr req -> moderate_try rt w req = inl e ->
          post_moderate rt w b = moderate_catch e)
    /\ (forall e1 e2 : thrown,
          status (moderate_catch e1) = status (moderate_catch e2) ->
          moderate_catch e1 = moderate_catch e2).
Proof.
  intros rt w b.
  assert (Hc : forall e, In (moderate_catch e) moderate_errors).
  { intros e. unfold moderate_errors.
    destruct (moderate_catch_cases e) as [E|E]; rewrite E; cbn [In]; tauto. }
  split; [|split].
  - destruct (destructure b) as [e0|req] eqn:Ed.
    { left. unfold post_moderate. rewrite Ed. apply Hc. }
    rewrite (post_moderate_body rt w b req Ed).
    destruct (acceptable_text_dec req) as [(s & Hs & Htrim & Hlen)|Hna].
    + unfold moderate. rewrite (moderate_accepted rt w req s Hs Htrim Hlen).
      destruct (HF_TOKEN w) as [[|k tok]|] eqn:Htok;
        try (left; unfold moderate_errors; cbn [In]; tauto).
      destruct (Client_connect w _ _) as [e|] eqn:Hcon; [left; apply Hc|].
      destruct (client_predict w _ _ _) as [e|res] eqn:Hpred; cbn [bind];
        [left; apply Hc|].
      destruct (get_property res (js "data")) as [e|data] eqn:Hdata;
        cbn [bind]; [left; apply Hc|].
      unfold moderate_score.
      destruct (truthy (optional_index_1 data)) eqn:Htr; cbn [negb];
        [|left; apply Hc].
      destruct (JSON_parse rt (optional_index_1 data)) as [e|v] eqn:Ep;
        cbn [bind]; [left; apply Hc|].
      destruct (get_property v (js "max_value")) as [e|score] eqn:Eg;
        cbn [bind]; [left; apply Hc|].
      right. exists req, data, v, score. repeat split; try assumption.
      exists s, (k :: tok), res. repeat split; try assumption.
      discriminate.
    + left. unfold moderate. rewrite (moderate_rejected rt w req Hna).
      unfold moderate_errors.
      destruct (negb _); [cbn [In]; tauto|].
      destruct (_ =? _)%nat; cbn [In]; tauto.
  - intros req e Hreq He. rewrite (post_moderate_body rt w b req Hreq).
    unfold moderate. rewrite He. reflexivity.
  - intros e1 e2 H.
    destruct (moderate_catch_cases e1) as [E1|E1],
             (moderate_catch_cases e2) as [E2|E2];
      rewrite E1, E2 in *; try reflexivity; discriminate.
Qed.

Lemma moderate_answers_closed_witness :
  moderate_catch (Error (js "connect ETIMEDOUT 10.0.0.1:443"))
  = moderate_catch (Error (js "cannot connect: secret host unreachable")).
Proof.
  apply (proj2 (proj2 (moderate_answers_closed ascii_runtime offline_world
                         JUndefined))).
  reflexivity.
Defined.

(** Two rewrite requests with the same body in one run of the server. *)
Example rewrite_twice :
  option_map snd
    (serve ascii_runtime empty_heap
       [(offline_world, PostRewrite (rewrite_body (js "I hate it") (js "short")));
        (offline_world, PostModerate JUndefined);
        (offline_world, PostRewrite (rewrite_body (js "I hate it") (js "short")));
        (offline_world, PostRewrite JUndefined)])
  = Some [rewritten_response (js "Quick note: I don't prefer it Let's discuss.")
            (js "short");
          json_error 500 "Failed to analyze message. Please try again.";
          rewritten_response (js "Quick note: I don't prefer it Let's discuss.")
            (js "short");
          json_error 500 "Failed to rewrite message. Please try again."].
Proof. vm_compute. reflexivity. Qed.
